(** * A verification model of the doc-string extraction tool [main.py]

    The development embeds the documentation model ([ClassDoc], [Doc]),
    the decorator classifier ([decorator_names]), the Markdown renderer
    ([param_table_from], [function_to_markdown], [ClassDoc.__str__],
    [Doc.compile]) and the tree visitor ([DocVisitor]) of [src/main.py],
    and states the properties of the specification over them.

    Conventions.
    - Python [str] is [string]; a value that may be [None] is an [option].
    - A Python [dict] is an association list in insertion order: the
      renderer iterates [items()], so the order is observable.
    - A call that may raise returns a [result]; the exceptions are the
      ones the interpreter raises at that point. *)

From Stdlib Require Import String Ascii List Bool Arith Lia ZArith.
Import ListNotations.
Open Scope string_scope.
Set Warnings "-register-all".
Set Default Proof Using "Type".

(* ================================================================== *)
(** ** Python strings *)

Module PyStr.

(** The line feed, written [\n] in the source. *)
Definition nl : string := String (ascii_of_nat 10) EmptyString.

(** [str(x)] for a value that is a string or [None]: what an f-string
    field and [Template.substitute] insert. *)
Definition str_opt (o : option string) : string :=
  match o with
  | Some s => s
  | None => "None"
  end.

(** [sep.join(l)]. *)
Fixpoint join (sep : string) (l : list string) : string :=
  match l with
  | [] => ""
  | [x] => x
  | x :: r => x ++ sep ++ join sep r
  end.

(** [p in s] on strings: [p] occurs in [s] as a contiguous run. *)
Fixpoint contains (p s : string) : bool :=
  String.prefix p s
  || match s with
     | EmptyString => false
     | String _ r => contains p r
     end.

(** Truthiness of an optional string: [None] and [''] are falsy. *)
Definition truthy (o : option string) : bool :=
  match o with
  | Some s => negb (s =? "")
  | None => false
  end.

(** [o or dflt], rendered. *)
Definition or_else (o : option string) (dflt : string) : string :=
  match o with
  | Some s => if s =? "" then dflt else s
  | None => dflt
  end.

(** [o == s] for an optional string [o] and a string [s]. *)
Definition opt_eqb (o : option string) (s : string) : bool :=
  match o with
  | Some t => t =? s
  | None => false
  end.

(** Text of [s] up to its first [':'] (all of [s] without one). *)
Fixpoint before_colon (s : string) : string :=
  match s with
  | EmptyString => EmptyString
  | String c r => if Ascii.eqb c ":" then EmptyString
                  else String c (before_colon r)
  end.

(** Number of (possibly overlapping) occurrences of [p] in [s]. *)
Fixpoint count_occ (p s : string) : nat :=
  (if String.prefix p s then 1 else 0)
  + match s with
    | EmptyString => 0
    | String _ r => count_occ p r
    end.

End PyStr.

(* ================================================================== *)
(** ** Python dictionaries, in insertion order *)

Module PyDict.
Section Dict.
Context {V : Type}.

Definition t := list (string * V).

(** [d[k]] as a lookup; [None] stands for [KeyError]. *)
Fixpoint get (k : string) (d : t) : option V :=
  match d with
  | [] => None
  | (k', v) :: r => if k =? k' then Some v else get k r
  end.

(** [d[k] = v]: an existing key keeps its position, a new key goes
    to the end. *)
Fixpoint set (k : string) (v : V) (d : t) : t :=
  match d with
  | [] => [(k, v)]
  | (k', v') :: r =>
      if k =? k' then (k', v) :: r else (k', v') :: set k v r
  end.

(** [k in d.keys()]. *)
Definition mem (k : string) (d : t) : bool :=
  match get k d with
  | Some _ => true
  | None => false
  end.

Definition keys (d : t) : list string := map fst d.

End Dict.
Arguments t : clear implicits.
End PyDict.

(* ================================================================== *)
(** ** Exceptions *)

Inductive exn : Type :=
| AttributeError
| TypeError
| KeyError
| ParseError.

Inductive result (A : Type) : Type :=
| Ok (a : A)
| Raise (e : exn).
Arguments Ok {A} a.
Arguments Raise {A} e.

Definition rbind {A B : Type} (m : result A) (k : A -> result B) : result B :=
  match m with
  | Ok a => k a
  | Raise e => Raise e
  end.

Notation "x <- m ;; k" := (rbind m (fun x => k))
  (at level 61, m at next level, right associativity).

(* ================================================================== *)
(** ** Parsed doc-strings (the records of [docstring_parser]) *)

Record DocstringParam : Type := mkParam {
  arg_name : string;
  type_name : option string;
  description : option string;
  default : option string
}.

Record DocstringReturns : Type := mkReturns {
  ret_type_name : option string
}.

Record Docstring : Type := mkDocstring {
  short_description : option string;
  params : list DocstringParam;
  returns : option DocstringReturns
}.

(** The text a missing doc-string is turned into. *)
Definition sentinel : string := "None".

(** The text of the Default cell of a required parameter. *)
Definition required_marker : string := "*is required*".

(* ================================================================== *)
(** ** Templates and the function renderer *)

Import PyStr.

Definition endpoint_decorators : list string := ["get"; "post"; "put"].

(** [class_template.substitute(name, description, method_table)]. *)
Definition class_template (name description method_table : string) : string :=
  "# `class` " ++ name ++ nl
  ++ description ++ nl
  ++ method_table ++ nl
  ++ nl
  ++ "---" ++ nl.

(** [function_template.substitute(name, params, description,
    table_of_params)]. *)
Definition function_template
    (name params description table_of_params : string) : string :=
  "## `" ++ name ++ "(" ++ params ++ ")`" ++ nl
  ++ description ++ nl
  ++ nl
  ++ table_of_params ++ nl.

Definition param_table_header : string :=
  "**Parameters:**" ++ nl ++ nl
  ++ "| Name | Type | Description | Default |" ++ nl
  ++ "| --- | --- | --- | --- |" ++ nl.

(** The Default cell: [p.default or '*is required*']. *)
Definition default_cell (p : DocstringParam) : string :=
  or_else (default p) required_marker.

(** One line of the parameter table (the f-string of the loop). *)
Definition param_row (p : DocstringParam) : string :=
  "| " ++ arg_name p ++ " | " ++ str_opt (type_name p) ++ " | "
  ++ str_opt (description p) ++ " | " ++ default_cell p ++ " |" ++ nl.

Definition param_table_from (params : list DocstringParam) : string :=
  if Nat.eqb (List.length params) 0 then ""
  else fold_left (fun table p => table ++ param_row p) params
                 param_table_header.

Definition function_to_markdown (name : string) (doc : Docstring) : string :=
  let params_ :=
    join ", " (map (fun n => arg_name n ++ ": " ++ str_opt (type_name n))
                   (params doc)) in
  function_template name params_ (str_opt (short_description doc))
                    (param_table_from (params doc)).

(* ================================================================== *)
(** ** Syntax trees (the part of [ast] the tool inspects) *)

(** The value of a literal. *)
Inductive constant : Type :=
| CStr (s : string)
| CInt (z : Z)
| CBool (b : bool)
| CNone.

(** Expressions.  [OtherExpr] stands for every expression class that is
    not [Name], [Attribute], [Call] or [Constant] (a subscript, a
    lambda, an operator, ...): such a node has none of the attributes
    [id], [attr], [func]. *)
Inductive expr : Type :=
| Name (id : string)
| Attribute (value : expr) (attr : string)
| Call (func : expr) (args : list expr)
| Constant (value : constant)
| OtherExpr (children : list expr).

(** Nodes.  [Other] stands for every statement that is neither a
    [FunctionDef], a [ClassDef] nor an expression statement (an [if], a
    loop, an [AsyncFunctionDef], ...), with its statement children in
    field order.  Expression children are left out of [Other],
    [FunctionDef] and [ClassDef] for the traversal: an expression holds
    no statement, and the visitor defines no method for an expression
    class, so visiting one changes nothing. *)
Inductive node : Type :=
| Module (body : list node)
| FunctionDef (name : string) (body : list node) (decorator_list : list expr)
| ClassDef (name : string) (body : list node) (decorator_list : list expr)
| Expr (value : expr)
| Other (children : list node).

(* ================================================================== *)
(** ** The decorator classifier *)

(** The inner [grab_id]: the callee of the call [name]. *)
Definition grab_id (name : expr) : result string :=
  match name with
  | Call (Name id) _ => Ok id
  | Call (Attribute _ attr) _ => Ok attr
  | _ => Raise AttributeError
  end.

(** The loop over [name.args]: the values of the literal arguments. *)
Definition constant_args (args : list expr) : list constant :=
  fold_left (fun acc arg =>
               match arg with
               | Constant v => (acc ++ [v])%list
               | _ => acc
               end) args [].

(** [', '.join(args)] on a list of values: [str.join] raises
    [TypeError] on an item that is not a string. *)
Fixpoint str_items (l : list constant) : result (list string) :=
  match l with
  | [] => Ok []
  | CStr s :: r => r' <- str_items r ;; Ok (s :: r')
  | _ :: _ => Raise TypeError
  end.

Definition join_values (sep : string) (l : list constant) : result string :=
  l' <- str_items l ;; Ok (join sep l').

(** The body of the loop over [node.decorator_list]. *)
Definition decorator_step (names : list string) (name : expr)
  : result (list string) :=
  match name with
  | Name id => Ok (names ++ [id])%list
  | Call _ args_ =>
      n <- grab_id name ;;
      s <- join_values ", " (constant_args args_) ;;
      Ok (names ++ [(n ++ ":" ++ s)%string])%list
  | _ => Ok names
  end.

Fixpoint decorator_loop (l : list expr) (names : list string)
  : result (list string) :=
  match l with
  | [] => Ok names
  | name :: r => names' <- decorator_step names name ;; decorator_loop r names'
  end.

(** [decorator_names(node)]; a node without [decorator_list] has no such
    attribute. *)
Definition decorator_names (n : node) : result (list string) :=
  match n with
  | FunctionDef _ _ decorator_list
  | ClassDef _ _ decorator_list => decorator_loop decorator_list []
  | _ => Raise AttributeError
  end.

(* ================================================================== *)
(** ** [ClassDoc] *)

Module ClassDoc.

Record t : Type := mk {
  name : string;
  doc : Docstring;
  methods : PyDict.t Docstring;
  decorators : list string
}.

(** [ClassDoc(name, doc, decorators)]. *)
Definition init (name_ : string) (doc_ : Docstring)
    (decorators_ : list string) : t :=
  mk name_ doc_ [] decorators_.

Definition append_method (self : t) (name_ : string) (doc_ : Docstring) : t :=
  mk (name self) (doc self) (PyDict.set name_ doc_ (methods self))
     (decorators self).

Definition method_table_header : string :=
  nl ++ "**Methods:**" ++ nl ++ nl
  ++ "| Name | Description | Returns |" ++ nl
  ++ "| --- | --- | --- |" ++ nl.

(** The Returns cell. *)
Definition returns_cell (d : Docstring) : string :=
  match returns d with
  | None => "`None`"
  | Some r => "`" ++ str_opt (ret_type_name r) ++ "`"
  end.

Definition method_row (name_ : string) (d : Docstring) : string :=
  "| `" ++ name_ ++ "` | " ++ str_opt (short_description d) ++ " | "
  ++ returns_cell d ++ " |" ++ nl.

(** The first loop of [__str__]. *)
Definition method_table (self : t) : string :=
  if negb (Nat.eqb (List.length (methods self)) 0) then
    fold_left (fun table (item : string * Docstring) =>
                 let (name_, d) := item in
                 if name_ =? "__init__" then table
                 else table ++ method_row name_ d)
              (methods self) method_table_header
  else "".

(** The description line: [desc == "None" and ' ' or desc]. *)
Definition desc (self : t) : string :=
  if opt_eqb (short_description (doc self)) "None" then " "
  else str_opt (short_description (doc self)).

Definition base (self : t) : string :=
  class_template (name self) (desc self) (method_table self).

(** The second loop of [__str__]: the expanded section, appended to
    [acc]. *)
Definition expand (ms : PyDict.t Docstring) (acc : string) : string :=
  fold_left (fun b (item : string * Docstring) =>
               let (name_, d) := item in
               if negb (opt_eqb (short_description d) "None")
               then b ++ nl ++ function_to_markdown name_ d
               else b)
            ms acc.

(** [__str__]. *)
Definition str (self : t) : string :=
  expand (methods self) (base self).

End ClassDoc.

(* ================================================================== *)
(** ** [Doc] *)

Module Doc.

(** The [module] attribute: the empty string until the visitor stores
    the parsed module doc-string. *)
Inductive module_field : Type :=
| ModuleText (s : string)
| ModuleDoc (d : Docstring).

Record t : Type := mk {
  name : string;
  module : module_field;
  classes : list ClassDoc.t;
  functions : PyDict.t Docstring;
  endpoints : PyDict.t string
}.

(** [Doc(name)]. *)
Definition init (name_ : string) : t :=
  mk name_ (ModuleText "") [] [] [].

Definition set_module (self : t) (d : Docstring) : t :=
  mk (name self) (ModuleDoc d) (classes self) (functions self)
     (endpoints self).

(** [append_class]: the new [ClassDoc] is the last element of
    [classes]; the reference returned is its index. *)
Definition append_class (self : t) (name_ : string) (doc_ : Docstring)
    (decorators_ : list string) : t * nat :=
  let new_class := ClassDoc.init name_ doc_ decorators_ in
  (mk (name self) (module self) (classes self ++ [new_class])%list
      (functions self) (endpoints self),
   List.length (classes self)).

(** [new_class.append_method(...)] through the reference [ref]: the
    object in [classes] is the one mutated. *)
Definition append_method (self : t) (ref : nat) (name_ : string)
    (doc_ : Docstring) : t :=
  mk (name self) (module self)
     (match nth_error (classes self) ref with
      | Some c => (firstn ref (classes self)
                   ++ ClassDoc.append_method c name_ doc_
                   :: skipn (S ref) (classes self))%list
      | None => classes self
      end)
     (functions self) (endpoints self).

(** The inner loop of [append_function], over [endpoint_decorators]. *)
Definition classify (name_ decorator : string) (eps : PyDict.t string)
  : PyDict.t string :=
  fold_left (fun e point =>
               if contains point decorator
               then PyDict.set name_ decorator e
               else e)
            endpoint_decorators eps.

Definition append_function (self : t) (name_ : string) (doc_ : Docstring)
    (decorators_ : list string) : t :=
  let eps := fold_left (fun e decorator => classify name_ decorator e)
                       decorators_ (endpoints self) in
  mk (name self) (module self) (classes self)
     (PyDict.set name_ doc_ (functions self)) eps.

End Doc.

(* ================================================================== *)
(** ** Reading a [Doc]: a state and exception monad *)

Module DocM.

(** A computation on the [Doc] object [self]: it returns a value or
    raises, and leaves a [Doc] behind. *)
Definition M (A : Type) : Type := Doc.t -> result A * Doc.t.

Definition ret {A : Type} (a : A) : M A := fun self => (Ok a, self).

Definition bind {A B : Type} (m : M A) (k : A -> M B) : M B :=
  fun self =>
    match m self with
    | (Ok a, self') => k a self'
    | (Raise e, self') => (Raise e, self')
    end.

(** Attribute reads. *)
Definition read {A : Type} (field : Doc.t -> A) : M A :=
  fun self => (Ok (field self), self).

(** [self.endpoints[name]]. *)
Definition endpoint_at (name_ : string) : M string :=
  fun self =>
    match PyDict.get name_ (Doc.endpoints self) with
    | Some v => (Ok v, self)
    | None => (Raise KeyError, self)
    end.

(** A [for] loop threading the local variables [s]. *)
Fixpoint for_each {X S : Type} (l : list X) (body : X -> S -> M S) (s : S)
  : M S :=
  match l with
  | [] => ret s
  | x :: r => bind (body x s) (for_each r body)
  end.

End DocM.

Notation "x <~ m ;; k" := (DocM.bind m (fun x => k))
  (at level 61, m at next level, right associativity).

Definition endpoint_tuple : Type := string * string * string.

Definition compiled : Type :=
  list string * list string * list endpoint_tuple.

(** The body of the loop of [compile] over [functions.items()], on the
    local lists [func_docs] and [endpoint_docs]. *)
Definition compile_item (item : string * Docstring)
    (acc : list string * list endpoint_tuple)
  : DocM.M (list string * list endpoint_tuple) :=
  let (name_, docs) := item in
  let (func_docs, endpoint_docs) := acc in
  let doc := function_to_markdown name_ docs in
  eps <~ DocM.read Doc.endpoints ;;
  if PyDict.mem name_ eps then
    http <~ DocM.endpoint_at name_ ;;
    DocM.ret (func_docs, (endpoint_docs ++ [(name_, doc, http)])%list)
  else
    DocM.ret ((func_docs ++ [doc])%list, endpoint_docs).

(** [Doc.compile]. *)
Definition compile : DocM.M compiled :=
  cls <~ DocM.read Doc.classes ;;
  class_docs <~ DocM.for_each cls
      (fun class_ acc => DocM.ret (acc ++ [ClassDoc.str class_])%list) [] ;;
  items <~ DocM.read Doc.functions ;;
  out <~ DocM.for_each items compile_item ([], []) ;;
  DocM.ret (class_docs, fst out, snd out).

(* ================================================================== *)
(** ** Sequences of operations on a [Doc] *)

Inductive op : Type :=
| AppendClass (name : string) (doc : Docstring) (decorators : list string)
| AppendFunction (name : string) (doc : Docstring) (decorators : list string)
| AppendMethod (ref : nat) (name : string) (doc : Docstring)
| Compile.

Definition step (self : Doc.t) (o : op) : Doc.t :=
  match o with
  | AppendClass n d ds => fst (Doc.append_class self n d ds)
  | AppendFunction n d ds => Doc.append_function self n d ds
  | AppendMethod r n d => Doc.append_method self r n d
  | Compile => snd (compile self)
  end.

Definition run (ops : list op) (self : Doc.t) : Doc.t :=
  fold_left step ops self.

(* ================================================================== *)
(** ** The tree visitor *)

Section Visitor.

(** The two library functions the visitor calls: [inspect.cleandoc],
    applied by [ast.get_docstring], and [docstring_parser.parse]. *)
Variable cleandoc : string -> string.
Variable docstring_parse : string -> result Docstring.

(** [ast.get_docstring(node)]: the text of a leading string literal
    of the body, [None] without one, [TypeError] on a node that
    cannot carry a doc-string. *)
Definition body_docstring (body : list node) : option string :=
  match body with
  | Expr (Constant (CStr text)) :: _ => Some (cleandoc text)
  | _ => None
  end.

Definition get_docstring (n : node) : result (option string) :=
  match n with
  | Module body
  | FunctionDef _ body _
  | ClassDef _ body _ => Ok (body_docstring body)
  | _ => Raise TypeError
  end.

(** [DocVisitor.grab_doc]:
    [docstring_parse(get_docstring(node).__str__())]. *)
Definition grab_doc (n : node) : result Docstring :=
  text <- get_docstring n ;;
  docstring_parse (str_opt text).

(** [NodeVisitor.visit], with the three methods of [DocVisitor] as its
    cases and [generic_visit] as the local [visit_all] over the
    children. *)
Fixpoint visit (n : node) (self : Doc.t) {struct n} : result Doc.t :=
  let visit_all :=
    fix visit_all (l : list node) (self : Doc.t) {struct l}
      : result Doc.t :=
      match l with
      | [] => Ok self
      | c :: r => self' <- visit c self ;; visit_all r self'
      end in
  match n with
  | Module body =>
      d <- grab_doc n ;;
      visit_all body (Doc.set_module self d)
  | FunctionDef name_ body _ =>
      d <- grab_doc n ;;
      names <- decorator_names n ;;
      visit_all body (Doc.append_function self name_ d names)
  | ClassDef name_ body _ =>
      d <- grab_doc n ;;
      names <- decorator_names n ;;
      let (self1, new_class) := Doc.append_class self name_ d names in
      self2 <-
        (fix methods_loop (l : list node) (self : Doc.t) {struct l}
           : result Doc.t :=
           match l with
           | [] => Ok self
           | content :: r =>
               match content with
               | FunctionDef mname mbody _ =>
                   md <- grab_doc content ;;
                   self' <- visit_all mbody
                              (Doc.append_method self new_class mname md) ;;
                   methods_loop r self'
               | _ => methods_loop r self
               end
           end) body self1 ;;
      visit_all body self2
  | Expr _ => Ok self
  | Other children => visit_all children self
  end.

(** [generic_visit] on a list of children. *)
Fixpoint visit_all (l : list node) (self : Doc.t) : result Doc.t :=
  match l with
  | [] => Ok self
  | c :: r => self' <- visit c self ;; visit_all r self'
  end.

(** The loop of [visit_ClassDef] over the class body. *)
Definition methods_loop (new_class : nat)
  : list node -> Doc.t -> result Doc.t :=
  fix methods_loop (l : list node) (self : Doc.t) {struct l}
    : result Doc.t :=
    match l with
    | [] => Ok self
    | content :: r =>
        match content with
        | FunctionDef mname mbody _ =>
            md <- grab_doc content ;;
            self' <- visit_all mbody
                       (Doc.append_method self new_class mname md) ;;
            methods_loop r self'
        | _ => methods_loop r self
        end
    end.

(** [DocVisitor(filename).visit(tree)], then [visitor.doc]. *)
Definition run_visitor (filename : string) (tree : node) : result Doc.t :=
  visit tree (Doc.init filename).

End Visitor.

(* ================================================================== *)
(** ** Writing the documents of one file: [handle_docs] *)

(** [s.split(sep)] for a separator of one character: the pieces of [s]
    between the occurrences of [sep]; never the empty list. *)
Fixpoint split_on (sep : ascii) (s : string) : list string :=
  match s with
  | EmptyString => [EmptyString]
  | String c r =>
      if Ascii.eqb c sep then EmptyString :: split_on sep r
      else match split_on sep r with
           | piece :: pieces => String c piece :: pieces
           | [] => [String c EmptyString]
           end
  end.

(** [s[:-k]]: [s] without its last [k] characters. *)
Definition drop_last (k : nat) (s : string) : string :=
  substring 0 (String.length s - k) s.

(** A value of [table_of_contents]: a file name, or the list of the
    one-entry dictionaries of the endpoints. *)
Inductive nav_value : Type :=
| NavFile (file : string)
| NavGroup (entries : list (string * string)).

(** A value of the manifest: the list under [nav], one one-entry
    dictionary per element, or any other value, kept as it was read. *)
Inductive yaml : Type :=
| YNav (entries : list (string * nav_value))
| YOther (text : string).

(** What the program does to the outside, in the order it does it:
    [open(path, 'w')] or [open(path, 'w+')] (the file is created or
    emptied), [os.makedirs], [f.write(text)] on the file opened at
    [path], [print], and [yaml.dump(data, f)] on the file opened at
    [path]. *)
Inductive event : Type :=
| OpenFile (path : string)
| Makedirs (path : string)
| WriteText (path : string) (text : string)
| PrintLine (text : string)
| Dump (path : string) (data : PyDict.t yaml).

(** How [handle_docs] can end early: an exception of the traversal, or
    the [IndexError] of a list index. *)
Inductive failure : Type :=
| Visitor (e : exn)
| IndexError.

Inductive outcome (A : Type) : Type :=
| Done (a : A)
| Failed (f : failure).
Arguments Done {A} a.
Arguments Failed {A} f.

Module IO.

(** A computation that appends to the events so far. *)
Definition M (A : Type) : Type := list event -> outcome A * list event.

Definition ret {A : Type} (a : A) : M A := fun log => (Done a, log).

Definition fail {A : Type} (f : failure) : M A := fun log => (Failed f, log).

Definition bind {A B : Type} (m : M A) (k : A -> M B) : M B :=
  fun log =>
    match m log with
    | (Done a, log') => k a log'
    | (Failed f, log') => (Failed f, log')
    end.

Definition emit (e : event) : M unit :=
  fun log => (Done tt, (log ++ [e])%list).

Fixpoint for_each {X S : Type} (l : list X) (body : X -> S -> M S) (s : S)
  : M S :=
  match l with
  | [] => ret s
  | x :: r => bind (body x s) (for_each r body)
  end.

End IO.

Notation "x <~~ m ;; k" := (IO.bind m (fun x => k))
  (at level 61, m at next level, right associativity).

Section HandleDocs.

(** The library functions besides those of the visitor:
    [Path(p).stem], [os.path.join] and [str.upper].  The file system is
    taken to accept every operation. *)
Variable cleandoc : string -> string.
Variable docstring_parse : string -> result Docstring.
Variable stem : string -> string.
Variable path_join : string -> string -> string.
Variable upper : string -> string.

(** The body of the loop over the endpoints, on the local list
    [nav_endpoints]. *)
Definition endpoint_step (md_file endpoint_dir : string)
    (item : endpoint_tuple) (nav_endpoints : list (string * string))
  : IO.M (list (string * string)) :=
  let '(name_, doc, http) := item in
  let http_ := split_on ":" http in
  match nth_error http_ 1 with
  | None => IO.fail IndexError
  | Some route =>
      let new_file := stem route ++ ".md" in
      let new_path := path_join endpoint_dir new_file in
      let nav_endpoints' :=
        (nav_endpoints
         ++ [(last (split_on "/" (drop_last 3 new_path)) "",
              path_join (md_file ++ "_endpoints") new_file)])%list in
      _ <~~ IO.emit (OpenFile new_path) ;;
      _ <~~ IO.emit
              (WriteText new_path
                 ("# " ++ upper (hd "" http_) ++ " `" ++ route ++ "/` "
                  ++ nl ++ nl ++ doc)) ;;
      IO.ret nav_endpoints'
  end.

(** [handle_docs(path, md_path)], from the syntax tree [tree] that
    [parse] gives for the text of the file at [path]. *)
Definition handle_docs (path md_path : string) (tree : node)
  : IO.M (PyDict.t nav_value) :=
  match run_visitor cleandoc docstring_parse path tree with
  | Raise e => IO.fail (Visitor e)
  | Ok doc =>
      let md_file := stem path in
      let table_of_contents :=
        PyDict.set md_file (NavFile (md_file ++ ".md")) [] in
      let main := path_join md_path (md_file ++ ".md") in
      _ <~~ IO.emit (OpenFile main) ;;
      match compile doc with
      | (Raise e, _) => IO.fail (Visitor e)
      | (Ok (classes_, funcs, endpoints_), _) =>
          table_of_contents' <~~
            match endpoints_ with
            | [] => IO.ret table_of_contents
            | _ :: _ =>
                let endpoint_dir :=
                  path_join md_path (md_file ++ "_endpoints") in
                _ <~~ IO.emit (Makedirs endpoint_dir) ;;
                nav_endpoints <~~
                  IO.for_each endpoints_
                    (endpoint_step md_file endpoint_dir) [] ;;
                IO.ret (PyDict.set (md_file ++ " - Endpoints")
                          (NavGroup nav_endpoints) table_of_contents)
            end ;;
          _ <~~ IO.emit (WriteText main (join ("---" ++ nl ++ nl) classes_)) ;;
          _ <~~ IO.emit (WriteText main (join ("---" ++ nl ++ nl) funcs)) ;;
          _ <~~ IO.emit (PrintLine ("... Wrote docs to " ++ md_file)) ;;
          IO.ret table_of_contents'
      end
  end.

End HandleDocs.

(* ================================================================== *)
(** ** The program *)

Definition USAGE : string :=
  nl ++ "=====================================" ++ nl
  ++ "Hello this is the documentation tool!" ++ nl
  ++ "=====================================" ++ nl
  ++ nl
  ++ "Usage:" ++ nl
  ++ "    doccer <source path> <markdown path>" ++ nl.

Section Main.

(** Besides the library functions of [handle_docs]: [os.path.isfile],
    the paths [Path(p).rglob('*.py')] yields, in its order, the syntax
    tree of the text of a file, and the mapping [yaml.load] reads from
    the manifest. *)
Variable cleandoc : string -> string.
Variable docstring_parse : string -> result Docstring.
Variable stem : string -> string.
Variable path_join : string -> string -> string.
Variable upper : string -> string.
Variable isfile : string -> bool.
Variable rglob : string -> list string.
Variable parse_file : string -> node.
Variable yaml_load : string -> PyDict.t yaml.

(** The work on one file: the line printed, [handle_docs], and the loop
    that appends one dictionary per item of its table to
    [table_of_contents]. *)
Definition extract (file md_path : string)
    (table_of_contents : list (string * nav_value))
  : IO.M (list (string * nav_value)) :=
  _ <~~ IO.emit (PrintLine ("Extracting docs from " ++ file ++ "!")) ;;
  items <~~ handle_docs cleandoc docstring_parse stem path_join upper
              file md_path (parse_file file) ;;
  IO.ret (fold_left (fun table (item : string * nav_value) =>
                       (table ++ [item])%list)
                    items table_of_contents).

(** The body under [if __name__ == '__main__'], on [sys.argv]; the
    value returned is the exit status. *)
Definition main (argv : list string) : IO.M nat :=
  match argv with
  | _ :: py_path :: md_path :: yml_path :: _ =>
      table_of_contents <~~
        (if isfile py_path then extract py_path md_path []
         else IO.for_each (rglob py_path)
                (fun file table =>
                   if stem file =? "__init__" then IO.ret table
                   else extract file md_path table)
                []) ;;
      let data := yaml_load yml_path in
      let data' := PyDict.set "nav" (YNav table_of_contents) data in
      _ <~~ IO.emit (OpenFile yml_path) ;;
      _ <~~ IO.emit (Dump yml_path data') ;;
      IO.ret 0
  | _ =>
      _ <~~ IO.emit (PrintLine USAGE) ;;
      _ <~~ IO.emit (PrintLine "[error] Please provide relevant paths!") ;;
      IO.ret 1
  end.

End Main.

(* ================================================================== *)
(** ** Definitions used to state the properties *)

(** Concatenation of a list of strings. *)
Definition cat (l : list string) : string := fold_right append "" l.

(** The test [append_function] makes on one tag: some verb of
    [endpoint_decorators] occurs in it. *)
Definition is_endpoint_tag (tag : string) : bool :=
  existsb (fun point => contains point tag) endpoint_decorators.

(** The rule in the specification's words: some verb occurs in the part
    of the tag before the colon. *)
Definition prefix_rule (tag : string) : bool :=
  existsb (fun point => contains point (before_colon tag)) endpoint_decorators.

(** [s] has [p] as a contiguous part. *)
Definition substring_of (p s : string) : Prop :=
  exists a b, s = a ++ p ++ b.

(** A decorator the classifier has a case for: a name; a call of a name
    or of an attribute whose literal arguments are all strings; any
    expression that is neither a name nor a call. *)
Definition literal_is_str (e : expr) : bool :=
  match e with
  | Constant (CStr _) => true
  | Constant _ => false
  | _ => true
  end.

Definition supported (e : expr) : bool :=
  match e with
  | Call (Name _) args_ | Call (Attribute _ _) args_ =>
      forallb literal_is_str args_
  | Call _ _ => false
  | _ => true
  end.

(** The methods [__str__] expands, the block of one, and all blocks. *)
Definition has_text (item : string * Docstring) : bool :=
  negb (opt_eqb (short_description (snd item)) sentinel).

Definition block (item : string * Docstring) : string :=
  nl ++ function_to_markdown (fst item) (snd item).

Definition blocks (ms : PyDict.t Docstring) : string :=
  cat (map block (filter has_text ms)).

(** The methods the summary table lists, the line of one, and all
    lines. *)
Definition listed (item : string * Docstring) : bool :=
  negb (fst item =? "__init__").

Definition row (item : string * Docstring) : string :=
  ClassDoc.method_row (fst item) (snd item).

Definition rows (ms : PyDict.t Docstring) : string :=
  cat (map row (filter listed ms)).

(** The children [generic_visit] dispatches on. *)
Definition children (n : node) : list node :=
  match n with
  | Module body | FunctionDef _ body _ | ClassDef _ body _ => body
  | Expr _ => []
  | Other cs => cs
  end.

(** [c] is [n] or lies below it. *)
Inductive within (c : node) : node -> Prop :=
| within_self : within c c
| within_child n k : In k (children n) -> within c k -> within c n.

(** [self'] holds everything [self] holds: the keys of [functions] and
    [endpoints], and every class with its name and its method names. *)
Record grows (self self' : Doc.t) : Prop := mkGrows {
  grows_functions :
    forall k, PyDict.mem k (Doc.functions self) = true ->
              PyDict.mem k (Doc.functions self') = true;
  grows_endpoints :
    forall k, PyDict.mem k (Doc.endpoints self) = true ->
              PyDict.mem k (Doc.endpoints self') = true;
  grows_classes :
    forall j c, nth_error (Doc.classes self) j = Some c ->
      exists c', nth_error (Doc.classes self') j = Some c'
                 /\ ClassDoc.name c' = ClassDoc.name c
                 /\ forall k, PyDict.mem k (ClassDoc.methods c) = true ->
                              PyDict.mem k (ClassDoc.methods c') = true
}.

(** What [compile] returns, as three list comprehensions. *)
Definition compile_value (self : Doc.t) : compiled :=
  (map ClassDoc.str (Doc.classes self),
   map (fun item : string * Docstring =>
          function_to_markdown (fst item) (snd item))
       (filter (fun item : string * Docstring =>
                  negb (PyDict.mem (fst item) (Doc.endpoints self)))
               (Doc.functions self)),
   flat_map (fun item : string * Docstring =>
               match PyDict.get (fst item) (Doc.endpoints self) with
               | Some http =>
                   [(fst item,
                     function_to_markdown (fst item) (snd item), http)]
               | None => []
               end)
            (Doc.functions self)).

(** The invariant of [Doc]: an endpoint is a function. *)
Definition endpoints_are_functions (self : Doc.t) : Prop :=
  forall k, PyDict.mem k (Doc.endpoints self) = true ->
            PyDict.mem k (Doc.functions self) = true.

(** A node that can carry a doc-string, and whether it has one. *)
Definition documentable (n : node) : bool :=
  match n with
  | Module _ | FunctionDef _ _ _ | ClassDef _ _ _ => true
  | _ => false
  end.

Definition has_doc_comment (n : node) : bool :=
  match children n with
  | Expr (Constant (CStr _)) :: _ => true
  | _ => false
  end.

(** What is stated of a method [mname] of a class [cname]: some class
    of that name lists it, and [functions] does. *)
Definition recorded_twice (cname mname : string) (self : Doc.t) : Prop :=
  (exists c, In c (Doc.classes self)
             /\ ClassDoc.name c = cname
             /\ PyDict.mem mname (ClassDoc.methods c) = true)
  /\ PyDict.mem mname (Doc.functions self) = true.

(** A visit of [n] keeps what the [Doc] holds; so do the visit of [n]
    and the generic visit of its children. *)
Definition visit_grows_at (cleandoc : string -> string)
    (docstring_parse : string -> result Docstring) (n : node) : Prop :=
  forall self self',
    visit cleandoc docstring_parse n self = Ok self' -> grows self self'.

Definition grows_below (cleandoc : string -> string)
    (docstring_parse : string -> result Docstring) (n : node) : Prop :=
  visit_grows_at cleandoc docstring_parse n
  /\ forall self self',
       visit_all cleandoc docstring_parse (children n) self = Ok self' ->
       grows self self'.

(** The string literals among the arguments of a call. *)
Definition literal_strings (args_ : list expr) : list string :=
  flat_map (fun e => match e with
                     | Constant (CStr s) => [s]
                     | _ => []
                     end) args_.

(** The tag of one decorator: none for an expression that is neither a
    name nor a call of a name or of an attribute. *)
Definition tag_of (e : expr) : list string :=
  match e with
  | Name id => [id]
  | Call (Name f) args_ | Call (Attribute _ f) args_ =>
      [f ++ ":" ++ join ", " (literal_strings args_)]
  | _ => []
  end.

(** The names of the classes a visit of [n] appends, in the order it
    appends them: a class, then the classes found below its methods by
    the loop over the class body, then the classes found by the generic
    visit of the body. *)
Fixpoint class_names (n : node) : list string :=
  match n with
  | Module body | FunctionDef _ body _ => flat_map class_names body
  | ClassDef name_ body _ =>
      name_
      :: flat_map (fun content =>
                     match content with
                     | FunctionDef _ mbody _ => flat_map class_names mbody
                     | _ => []
                     end) body
      ++ flat_map class_names body
  | Expr _ => []
  | Other cs => flat_map class_names cs
  end.

Definition below_methods (l : list node) : list string :=
  flat_map (fun content =>
              match content with
              | FunctionDef _ mbody _ => flat_map class_names mbody
              | _ => []
              end) l.

(** The class the loop over a class body makes of [c]: every function
    definition of the body, in order, stored under its name with its
    parsed doc-string. *)
Fixpoint collect_methods (cleandoc : string -> string)
    (docstring_parse : string -> result Docstring)
    (l : list node) (c : ClassDoc.t) : result ClassDoc.t :=
  match l with
  | [] => Ok c
  | FunctionDef mname mbody mdecs :: r =>
      md <- grab_doc cleandoc docstring_parse (FunctionDef mname mbody mdecs) ;;
      collect_methods cleandoc docstring_parse r
        (ClassDoc.append_method c mname md)
  | _ :: r => collect_methods cleandoc docstring_parse r c
  end.

(** The text after the first colon of [s], if [s] has a colon. *)
Fixpoint after_colon (s : string) : option string :=
  match s with
  | EmptyString => None
  | String c r => if Ascii.eqb c ":" then Some r else after_colon r
  end.

(** The route of a descriptor: the text between its first colon and its
    second colon (or its end). *)
Definition route_of (http : string) : option string :=
  option_map before_colon (after_colon http).

(** The directory of the endpoint pages of a file, the path of the page
    of one endpoint, what writing the page does, and the entry of the
    page in the navigation. *)
Definition endpoint_dir_of (path_join : string -> string -> string)
    (md_path md_file : string) : string :=
  path_join md_path (md_file ++ "_endpoints").

Definition endpoint_events (stem : string -> string)
    (path_join : string -> string -> string) (upper : string -> string)
    (md_path md_file : string) (item : endpoint_tuple) : list event :=
  match route_of (snd item) with
  | Some route =>
      let new_path := path_join (endpoint_dir_of path_join md_path md_file)
                        (stem route ++ ".md") in
      [OpenFile new_path;
       WriteText new_path
         ("# " ++ upper (before_colon (snd item)) ++ " `" ++ route ++ "/` "
          ++ nl ++ nl ++ snd (fst item))]
  | None => []
  end.

Definition endpoint_nav (stem : string -> string)
    (path_join : string -> string -> string)
    (md_path md_file : string) (item : endpoint_tuple)
  : list (string * string) :=
  match route_of (snd item) with
  | Some route =>
      let new_file := stem route ++ ".md" in
      [(last (split_on "/"
                (drop_last 3
                   (path_join (endpoint_dir_of path_join md_path md_file)
                      new_file))) "",
        path_join (md_file ++ "_endpoints") new_file)]
  | None => []
  end.

(** A computation that only appends to the events: what it returns and
    what it appends do not depend on the events so far. *)
Definition appends {A : Type} (m : IO.M A) : Prop :=
  forall log, m log = (fst (m []), (log ++ snd (m []))%list).

(** The files the program works on: the path itself when it is a file,
    otherwise the paths [rglob] yields but those whose stem is
    [__init__]. *)
Definition files_of (stem : string -> string) (isfile : string -> bool)
    (rglob : string -> list string) (py_path : string) : list string :=
  if isfile py_path then [py_path]
  else filter (fun file => negb (stem file =? "__init__")) (rglob py_path).

(** The line printed before the work on a file. *)
Definition extracting (file : string) : event :=
  PrintLine ("Extracting docs from " ++ file ++ "!").

(** No module node in or below [n]: what [parse] returns has one
    module, at the root. *)
Fixpoint no_module (n : node) : bool :=
  match n with
  | Module _ => false
  | FunctionDef _ body _ | ClassDef _ body _ => forallb no_module body
  | Expr _ => true
  | Other cs => forallb no_module cs
  end.

(* ================================================================== *)
(** ** Strings and dictionaries *)

Lemma append_assoc (a b c : string) : (a ++ b) ++ c = a ++ (b ++ c).
Proof. induction a as [|x a IH]; simpl; [reflexivity | now rewrite IH]. Qed.

Lemma append_empty_r (a : string) : a ++ "" = a.
Proof. induction a as [|x a IH]; simpl; [reflexivity | now rewrite IH]. Qed.

Lemma fold_left_append {X : Type} (f : X -> string) (l : list X) (acc : string) :
  fold_left (fun t x => t ++ f x) l acc = acc ++ cat (map f l).
Proof.
  revert acc; induction l as [|x l IH]; intro acc; simpl.
  - now rewrite append_empty_r.
  - rewrite IH. apply append_assoc.
Qed.

Lemma prefix_iff (p s : string) :
  String.prefix p s = true <-> exists b, s = p ++ b.
Proof.
  revert s; induction p as [|x p IH]; intro s.
  - destruct s; simpl; split; eauto.
  - destruct s as [|y s]; simpl.
    + split; [discriminate | intros [b Hb]; discriminate].
    + destruct (ascii_dec x y) as [->|Hxy].
      * rewrite IH. split; intros [b Hb]; exists b; congruence.
      * split; [discriminate | intros [b Hb]; congruence].
Qed.

Lemma contains_iff (p s : string) :
  contains p s = true <-> substring_of p s.
Proof.
  unfold substring_of. induction s as [|y s IH].
  - cbn [contains]. rewrite orb_false_r, prefix_iff. split.
    + intros [b Hb]. exists "", b. exact Hb.
    + intros (a & b & H). destruct a; simpl in H; [eauto | discriminate].
  - cbn [contains]. rewrite orb_true_iff, IH, prefix_iff. split.
    + intros [[b Hb] | (a & b & Hab)].
      * exists "", b. exact Hb.
      * exists (String y a), b. simpl. now rewrite Hab.
    + intros (a & b & H). destruct a as [|x a]; simpl in H.
      * left. eauto.
      * right. exists a, b. congruence.
Qed.

Section DictFacts.
Context {V : Type}.
Implicit Types (d : PyDict.t V) (k : string) (v : V).

Lemma get_set_same k v d : PyDict.get k (PyDict.set k v d) = Some v.
Proof.
  induction d as [|[k' v'] d IH]; simpl.
  - now rewrite String.eqb_refl.
  - destruct (k =? k') eqn:E; simpl; rewrite E; [reflexivity | exact IH].
Qed.

Lemma get_set_other k k' v d :
  k <> k' -> PyDict.get k (PyDict.set k' v d) = PyDict.get k d.
Proof.
  intro Hne. induction d as [|[k0 v0] d IH]; simpl.
  - apply String.eqb_neq in Hne. now rewrite Hne.
  - destruct (k' =? k0) eqn:E; simpl.
    + apply String.eqb_eq in E. subst k0.
      apply String.eqb_neq in Hne. now rewrite Hne.
    + destruct (k =? k0); [reflexivity | exact IH].
Qed.

Lemma set_set_same k v v' d :
  PyDict.set k v (PyDict.set k v' d) = PyDict.set k v d.
Proof.
  induction d as [|[k0 v0] d IH]; simpl.
  - now rewrite String.eqb_refl.
  - destruct (k =? k0) eqn:E; simpl; rewrite E; [reflexivity | now rewrite IH].
Qed.

Lemma mem_set_same k v d : PyDict.mem k (PyDict.set k v d) = true.
Proof. unfold PyDict.mem. now rewrite get_set_same. Qed.

Lemma mem_set_mono k k' v d :
  PyDict.mem k d = true -> PyDict.mem k (PyDict.set k' v d) = true.
Proof.
  unfold PyDict.mem. destruct (string_dec k k') as [->|Hne].
  - now rewrite get_set_same.
  - now rewrite get_set_other.
Qed.

Lemma get_In k v d : PyDict.get k d = Some v -> In (k, v) d.
Proof.
  induction d as [|[k0 v0] d IH]; simpl; [discriminate|].
  destruct (k =? k0) eqn:E.
  - apply String.eqb_eq in E. intros [= ->]. left. congruence.
  - intro H. right. auto.
Qed.

Lemma mem_keys k d : PyDict.mem k d = true <-> In k (PyDict.keys d).
Proof.
  unfold PyDict.mem, PyDict.keys.
  induction d as [|[k0 v0] d IH]; simpl.
  - split; [discriminate | tauto].
  - destruct (k =? k0) eqn:E.
    + apply String.eqb_eq in E. split; auto.
    + apply String.eqb_neq in E. rewrite IH. split; [auto | intros [H|H]; congruence].
Qed.

End DictFacts.

(* ================================================================== *)
(** ** The parameter table *)

(** C10.  [param_table_from] returns the empty string on an empty
    parameter list.  On a non-empty list it returns the header with the
    columns Name, Type, Description and Default followed by one line per
    parameter, in order, whose last cell is the Default cell; that cell
    is the required-marker [*is required*] when no default was recorded
    ([None] or the empty text), and the recorded default otherwise. *)
Theorem param_table_from_spec :
  param_table_from [] = ""
  /\ (forall p ps,
        param_table_from (p :: ps)
        = ("**Parameters:**" ++ nl ++ nl
           ++ "| Name | Type | Description | Default |" ++ nl
           ++ "| --- | --- | --- | --- |" ++ nl)
          ++ cat (map param_row (p :: ps)))
  /\ (forall p,
        param_row p
        = "| " ++ arg_name p ++ " | " ++ str_opt (type_name p) ++ " | "
          ++ str_opt (description p) ++ " | " ++ default_cell p
          ++ " |" ++ nl)
  /\ (forall p, truthy (default p) = false ->
                default_cell p = "*is required*")
  /\ (forall p d, default p = Some d -> d <> "" -> default_cell p = d).
Proof.
  split; [reflexivity|]. split; [|split; [reflexivity|split]].
  - intros p ps. unfold param_table_from.
    cbn [List.length Nat.eqb]. now rewrite fold_left_append.
  - intros p Hp. unfold default_cell, or_else, truthy in *.
    destruct (default p) as [s|]; [|reflexivity].
    destruct (s =? "") eqn:E; [reflexivity | discriminate].
  - intros p d Hd Hne. unfold default_cell, or_else. rewrite Hd.
    apply String.eqb_neq in Hne. now rewrite Hne.
Qed.

Lemma param_table_from_spec_witness :
  default_cell (mkParam "path" (Some "str") None None) = "*is required*"
  /\ default_cell (mkParam "depth" (Some "int") None (Some "3")) = "3".
Proof.
  destruct param_table_from_spec as (_ & _ & _ & Hreq & Hdef).
  split.
  - apply Hreq. reflexivity.
  - apply (Hdef _ "3"); [reflexivity | discriminate].
Defined.

(* ================================================================== *)
(** ** Endpoint classification in [append_function] *)

Lemma classify_eq (name_ tag : string) (e : PyDict.t string) :
  Doc.classify name_ tag e
  = if is_endpoint_tag tag then PyDict.set name_ tag e else e.
Proof.
  unfold Doc.classify, is_endpoint_tag, endpoint_decorators. simpl.
  destruct (contains "get" tag), (contains "post" tag),
    (contains "put" tag); simpl; rewrite ?set_set_same; reflexivity.
Qed.

Lemma classify_all_skip (name_ : string) (tags : list string)
    (e : PyDict.t string) :
  (forall t, In t tags -> is_endpoint_tag t = false) ->
  fold_left (fun e tag => Doc.classify name_ tag e) tags e = e.
Proof.
  revert e; induction tags as [|t tags IH]; intros e H; simpl; [reflexivity|].
  rewrite classify_eq, (H t (or_introl eq_refl)).
  apply IH. intros t' Ht'. apply H. now right.
Qed.

Lemma classify_all_mem (name_ : string) (tags : list string)
    (e : PyDict.t string) :
  PyDict.mem name_ (fold_left (fun e tag => Doc.classify name_ tag e) tags e)
  = PyDict.mem name_ e || existsb is_endpoint_tag tags.
Proof.
  revert e; induction tags as [|t tags IH]; intro e; simpl.
  - now rewrite orb_false_r.
  - rewrite IH, classify_eq. destruct (is_endpoint_tag t); simpl.
    + rewrite mem_set_same. now rewrite orb_true_r.
    + reflexivity.
Qed.

Lemma classify_all_mono (name_ k : string) (tags : list string)
    (e : PyDict.t string) :
  PyDict.mem k e = true ->
  PyDict.mem k (fold_left (fun e tag => Doc.classify name_ tag e) tags e)
  = true.
Proof.
  revert e; induction tags as [|t tags IH]; intros e H; simpl; [exact H|].
  apply IH. rewrite classify_eq.
  destruct (is_endpoint_tag t); [now apply mem_set_mono | exact H].
Qed.

Lemma is_endpoint_tag_iff (tag : string) :
  is_endpoint_tag tag = true
  <-> exists verb, In verb endpoint_decorators /\ substring_of verb tag.
Proof.
  unfold is_endpoint_tag. rewrite existsb_exists.
  split; intros (v & Hv & H); exists v; split; auto; now apply contains_iff.
Qed.

(** C1, as the specification states it, fails: with the decorators
    [get:/a] and [post:/b] the descriptor stored is [post:/b]. *)
Lemma append_function_first_match_refuted :
  let self := Doc.append_function (Doc.init "m.py") "f"
                (mkDocstring (Some "Handler.") [] None)
                ["get:/a"; "post:/b"] in
  PyDict.get "f" (Doc.endpoints self) = Some "post:/b"
  /\ PyDict.get "f" (Doc.endpoints self) <> Some "get:/a".
Proof. split; [reflexivity | discriminate]. Qed.

(** C1, amended.  When some decorator tag satisfies the classification
    rule, the descriptor stored in [endpoints[name]] is the LAST
    matching tag in decorator order: every match overwrites the one
    before it. *)
Theorem append_function_last_match
    (self : Doc.t) (name_ : string) (doc_ : Docstring)
    (before : list string) (tag : string) (after : list string) :
  is_endpoint_tag tag = true ->
  (forall t, In t after -> is_endpoint_tag t = false) ->
  PyDict.get name_
    (Doc.endpoints
       (Doc.append_function self name_ doc_ (before ++ tag :: after)%list))
  = Some tag.
Proof.
  intros Htag Hafter. unfold Doc.append_function. cbn [Doc.endpoints].
  rewrite fold_left_app. cbn [fold_left].
  rewrite (classify_all_skip _ after) by exact Hafter.
  rewrite classify_eq, Htag. apply get_set_same.
Qed.

Lemma append_function_last_match_witness :
  PyDict.get "f"
    (Doc.endpoints
       (Doc.append_function (Doc.init "m.py") "f"
          (mkDocstring (Some "Handler.") [] None)
          (["get:/a"] ++ "post:/b" :: ["cached"])%list))
  = Some "post:/b".
Proof.
  apply append_function_last_match.
  - reflexivity.
  - intros t [<- | []]. reflexivity.
Defined.

(** C2, as the specification states it, fails: the tag
    [route:/get_items] has no verb before its colon, and the function
    is stored as an endpoint all the same. *)
Lemma prefix_rule_refuted :
  let self := Doc.append_function (Doc.init "m.py") "items"
                (mkDocstring (Some "Lists the items.") [] None)
                ["route:/get_items"] in
  prefix_rule "route:/get_items" = false
  /\ PyDict.get "items" (Doc.endpoints self) = Some "route:/get_items".
Proof. split; reflexivity. Qed.

(** C2, amended.  A function not yet among the endpoints becomes one if
    and only if a verb of [get], [post], [put] occurs somewhere in one of
    its tags, before or after the colon. *)
Theorem endpoint_rule_whole_tag
    (self : Doc.t) (name_ : string) (doc_ : Docstring)
    (decorators_ : list string) :
  PyDict.mem name_ (Doc.endpoints self) = false ->
  (PyDict.mem name_
     (Doc.endpoints (Doc.append_function self name_ doc_ decorators_)) = true
   <-> exists tag verb,
         In tag decorators_ /\ In verb ["get"; "post"; "put"]
         /\ substring_of verb tag).
Proof.
  intro Hfresh. unfold Doc.append_function. cbn [Doc.endpoints].
  rewrite classify_all_mem, Hfresh, orb_false_l, existsb_exists.
  split.
  - intros (tag & Hin & Htag). apply is_endpoint_tag_iff in Htag.
    destruct Htag as (verb & Hv & Hsub). now exists tag, verb.
  - intros (tag & verb & Hin & Hv & Hsub). exists tag. split; [exact Hin|].
    apply is_endpoint_tag_iff. now exists verb.
Qed.

Lemma endpoint_rule_whole_tag_witness :
  PyDict.mem "items"
    (Doc.endpoints
       (Doc.append_function (Doc.init "m.py") "items"
          (mkDocstring None [] None) ["route:/get_items"])) = true
  <-> exists tag verb,
        In tag ["route:/get_items"] /\ In verb ["get"; "post"; "put"]
        /\ substring_of verb tag.
Proof.
  apply (endpoint_rule_whole_tag (Doc.init "m.py")). reflexivity.
Defined.

(* ================================================================== *)
(** ** The decorator classifier *)

Lemma constant_args_eq (args_ : list expr) :
  constant_args args_
  = flat_map (fun e => match e with Constant v => [v] | _ => [] end) args_.
Proof.
  unfold constant_args.
  enough (H : forall acc,
             fold_left (fun acc arg => match arg with
                                       | Constant v => (acc ++ [v])%list
                                       | _ => acc
                                       end) args_ acc
             = (acc ++ flat_map (fun e => match e with
                                          | Constant v => [v]
                                          | _ => []
                                          end) args_)%list)
    by apply (H []).
  induction args_ as [|a args_ IH]; intro acc; simpl.
  - now rewrite app_nil_r.
  - rewrite IH. destruct a; simpl; try reflexivity.
    now rewrite <- app_assoc.
Qed.

Lemma join_values_ok (sep : string) (args_ : list expr) :
  forallb literal_is_str args_ = true ->
  exists s, join_values sep (constant_args args_) = Ok s.
Proof.
  intro H. rewrite constant_args_eq. unfold join_values.
  enough (E : exists l,
             str_items (flat_map (fun e => match e with
                                           | Constant v => [v]
                                           | _ => []
                                           end) args_) = Ok l)
    by (destruct E as [l ->]; simpl; eauto).
  induction args_ as [|a args_ IH]; simpl in *; [eauto|].
  apply andb_true_iff in H. destruct H as [Ha Hr].
  destruct (IH Hr) as [l Hl].
  destruct a as [| | |[]|]; simpl in *; try discriminate; eauto.
  rewrite Hl. simpl. eauto.
Qed.

(** The decorators the classifier has a case for never make it raise. *)
Lemma decorator_loop_supported (l : list expr) (names : list string) :
  forallb supported l = true ->
  exists names', decorator_loop l names = Ok names'.
Proof.
  revert names; induction l as [|e l IH]; intros names H; simpl in *; [eauto|].
  apply andb_true_iff in H. destruct H as [He Hl].
  assert (Hstep : exists n', decorator_step names e = Ok n').
  { destruct e as [id|v a|f args_|c|cs]; simpl; eauto.
    destruct f as [id|v a|f' args'|c|cs]; simpl in He; try discriminate;
      destruct (join_values_ok ", " args_ He) as [s ->]; simpl; eauto. }
  destruct Hstep as [n' ->]. simpl. apply IH, Hl.
Qed.

(** C3.  [decorator_names] raises on two decorator shapes the claim
    lists: a call with a literal argument that is not a string
    ([@lru_cache(128)]: [str.join] raises [TypeError]) and a call whose
    callee is neither a name nor an attribute ([@factory()("/a")]: the
    callee has no [attr], [AttributeError]).  The visitor does not catch
    the exception: the traversal of a module with such a function ends
    with it. *)
Theorem decorator_names_raises :
  let cached := FunctionDef "cached" []
                  [Call (Name "lru_cache") [Constant (CInt 128)]] in
  let made := FunctionDef "made" []
                [Call (Call (Name "factory") []) [Constant (CStr "/a")]] in
  let parse := fun text : string => Ok (mkDocstring (Some text) [] None) in
  decorator_names cached = Raise TypeError
  /\ decorator_names made = Raise AttributeError
  /\ run_visitor (fun s => s) parse "m.py" (Module [cached]) = Raise TypeError
  /\ run_visitor (fun s => s) parse "m.py" (Module [made])
     = Raise AttributeError.
Proof.
  intros cached made parse.
  split; [reflexivity|]. split; [reflexivity|].
  split; vm_compute; reflexivity.
Qed.

(* ================================================================== *)
(** ** Rendering a class *)

Lemma expand_eq (ms : PyDict.t Docstring) (acc : string) :
  ClassDoc.expand ms acc = acc ++ blocks ms.
Proof.
  unfold ClassDoc.expand, blocks. revert acc.
  induction ms as [|[n d] ms IH]; intro acc.
  - cbn. now rewrite append_empty_r.
  - cbn [fold_left filter]. rewrite IH. unfold has_text at 2.
    cbn [snd]. unfold sentinel.
    destruct (opt_eqb (short_description d) "None");
      cbn [negb map cat fold_right]; [reflexivity|].
    unfold block at 1. cbn [fst snd]. now rewrite !append_assoc.
Qed.

Lemma table_loop_eq (ms : PyDict.t Docstring) (acc : string) :
  fold_left (fun table (item : string * Docstring) =>
               let (name_, d) := item in
               if name_ =? "__init__" then table
               else table ++ ClassDoc.method_row name_ d) ms acc
  = acc ++ rows ms.
Proof.
  unfold rows. revert acc.
  induction ms as [|[n d] ms IH]; intro acc.
  - cbn. now rewrite append_empty_r.
  - cbn [fold_left filter]. rewrite IH. unfold listed at 2. cbn [fst].
    destruct (n =? "__init__");
      cbn [negb map cat fold_right]; [reflexivity|].
    unfold row at 1. cbn [fst snd]. now rewrite !append_assoc.
Qed.

Lemma method_table_eq (self : ClassDoc.t) :
  ClassDoc.methods self <> [] ->
  ClassDoc.method_table self
  = ClassDoc.method_table_header ++ rows (ClassDoc.methods self).
Proof.
  intro Hne. unfold ClassDoc.method_table.
  destruct (ClassDoc.methods self) as [|m ms]; [congruence|].
  cbn [List.length Nat.eqb negb]. apply table_loop_eq.
Qed.

Lemma blocks_app (a b : PyDict.t Docstring) :
  blocks (a ++ b)%list = blocks a ++ blocks b.
Proof.
  unfold blocks. rewrite filter_app, map_app.
  induction (map block (filter has_text a)) as [|x l IH]; simpl;
    [reflexivity | now rewrite IH, append_assoc].
Qed.

Lemma rows_app (a b : PyDict.t Docstring) :
  rows (a ++ b)%list = rows a ++ rows b.
Proof.
  unfold rows. rewrite filter_app, map_app.
  induction (map row (filter listed a)) as [|x l IH]; simpl;
    [reflexivity | now rewrite IH, append_assoc].
Qed.






(* ================================================================== *)
(** ** [compile] *)

Lemma class_loop_eq (cls : list ClassDoc.t) (acc : list string) (self : Doc.t) :
  DocM.for_each cls
    (fun class_ acc => DocM.ret (acc ++ [ClassDoc.str class_])%list) acc self
  = (Ok (acc ++ map ClassDoc.str cls)%list, self).
Proof.
  revert acc; induction cls as [|c cls IH]; intro acc; simpl.
  - unfold DocM.ret. now rewrite app_nil_r.
  - unfold DocM.bind, DocM.ret. rewrite IH. now rewrite <- app_assoc.
Qed.

Lemma compile_item_eq (item : string * Docstring)
    (fd : list string) (ed : list endpoint_tuple) (self : Doc.t) :
  compile_item item (fd, ed) self
  = (Ok (match PyDict.get (fst item) (Doc.endpoints self) with
         | Some http =>
             (fd, (ed ++ [(fst item,
                           function_to_markdown (fst item) (snd item),
                           http)])%list)
         | None =>
             ((fd ++ [function_to_markdown (fst item) (snd item)])%list, ed)
         end), self).
Proof.
  destruct item as [n d]. unfold compile_item. cbn [fst snd].
  unfold DocM.bind, DocM.read, PyDict.mem, DocM.endpoint_at, DocM.ret.
  destruct (PyDict.get n (Doc.endpoints self)) eqn:E; cbn;
    rewrite ?E; reflexivity.
Qed.

Lemma function_loop_eq (items : PyDict.t Docstring)
    (fd : list string) (ed : list endpoint_tuple) (self : Doc.t) :
  DocM.for_each items compile_item (fd, ed) self
  = (Ok ((fd ++ map (fun item : string * Docstring =>
                       function_to_markdown (fst item) (snd item))
                    (filter (fun item : string * Docstring =>
                               negb (PyDict.mem (fst item) (Doc.endpoints self)))
                            items))%list,
         (ed ++ flat_map
                  (fun item : string * Docstring =>
                     match PyDict.get (fst item) (Doc.endpoints self) with
                     | Some http =>
                         [(fst item,
                           function_to_markdown (fst item) (snd item), http)]
                     | None => []
                     end) items)%list),
     self).
Proof.
  revert fd ed; induction items as [|item items IH]; intros fd ed.
  - cbn. unfold DocM.ret. now rewrite !app_nil_r.
  - cbn [DocM.for_each filter flat_map]. unfold DocM.bind.
    rewrite compile_item_eq. unfold PyDict.mem.
    destruct (PyDict.get (fst item) (Doc.endpoints self)) as [http|];
      cbn [negb map]; rewrite IH; now rewrite <- ?app_assoc.
Qed.

Lemma compile_eq (self : Doc.t) :
  compile self = (Ok (compile_value self), self).
Proof.
  unfold compile, compile_value.
  unfold DocM.bind at 1. unfold DocM.read at 1.
  unfold DocM.bind at 1. rewrite class_loop_eq.
  unfold DocM.bind at 1. unfold DocM.read at 1.
  unfold DocM.bind at 1. rewrite function_loop_eq.
  reflexivity.
Qed.

(** C7.  [compile] is a pure read: on every [Doc] it returns without
    raising and leaves the [Doc] as it found it, name, module, classes,
    functions and endpoints; two calls in a row return the same three
    lists. *)
Theorem compile_pure_read (self : Doc.t) :
  compile self = (Ok (compile_value self), self)
  /\ (first <~ compile ;; second <~ compile ;; DocM.ret (first, second)) self
     = (Ok (compile_value self, compile_value self), self).
Proof.
  split; [apply compile_eq|].
  unfold DocM.bind. now rewrite !compile_eq.
Qed.

(* ================================================================== *)
(** ** The invariant of [Doc] *)

Lemma classify_all_keys (name_ k : string) (tags : list string)
    (e : PyDict.t string) :
  PyDict.mem k (fold_left (fun e tag => Doc.classify name_ tag e) tags e)
  = true ->
  k = name_ \/ PyDict.mem k e = true.
Proof.
  revert e; induction tags as [|t tags IH]; intros e H; simpl in H; [auto|].
  apply IH in H. destruct H as [H|H]; [auto|].
  rewrite classify_eq in H. destruct (is_endpoint_tag t); [|auto].
  destruct (string_dec k name_) as [->|Hne]; [auto|right].
  unfold PyDict.mem in *. now rewrite get_set_other in H.
Qed.

Lemma step_invariant (self : Doc.t) (o : op) :
  endpoints_are_functions self -> endpoints_are_functions (step self o).
Proof.
  intros Hinv. destruct o as [n d ds|n d ds|r n d|]; cbn [step].
  - exact Hinv.
  - intros k Hk. cbn [Doc.append_function Doc.endpoints Doc.functions] in *.
    apply classify_all_keys in Hk. destruct Hk as [->|Hk].
    + apply mem_set_same.
    + apply mem_set_mono, Hinv, Hk.
  - exact Hinv.
  - now rewrite compile_eq.
Qed.

Lemma run_invariant (ops : list op) (self : Doc.t) :
  endpoints_are_functions self -> endpoints_are_functions (run ops self).
Proof.
  unfold run. revert self.
  induction ops as [|o ops IH]; intros self H; simpl; [exact H|].
  apply IH, step_invariant, H.
Qed.

(** C5.  After every sequence of [append_class], [append_function],
    [append_method] and [compile] on a new [Doc], the keys of
    [endpoints] are keys of [functions]. *)
Theorem endpoints_subset_functions (filename : string) (ops : list op) :
  incl (PyDict.keys (Doc.endpoints (run ops (Doc.init filename))))
       (PyDict.keys (Doc.functions (run ops (Doc.init filename)))).
Proof.
  intros k Hk. apply mem_keys. apply mem_keys in Hk.
  revert k Hk. fold (endpoints_are_functions (run ops (Doc.init filename))).
  apply run_invariant. intros k Hk. discriminate Hk.
Qed.

(* ================================================================== *)
(** ** Doc-string extraction *)

(** C9.  On a module, class or function node without a doc-comment,
    [grab_doc] hands the text [None] to the doc-string parser; with a
    parser that gives a one-word text back as its short description,
    the description extracted is the sentinel, and nothing is raised. *)
Theorem grab_doc_sentinel
    (cleandoc : string -> string)
    (docstring_parse : string -> result Docstring)
    (n : node) (parsed : Docstring) :
  docstring_parse "None" = Ok parsed ->
  short_description parsed = Some "None" ->
  documentable n = true ->
  has_doc_comment n = false ->
  grab_doc cleandoc docstring_parse n = docstring_parse "None"
  /\ exists d, grab_doc cleandoc docstring_parse n = Ok d
               /\ short_description d = Some sentinel.
Proof.
  intros Hparse Hshort Hn Hdoc.
  assert (Hget : get_docstring cleandoc n = Ok None).
  { destruct n as [body|f body ds|c body ds|e|cs]; try discriminate;
      unfold has_doc_comment in Hdoc; cbn [children] in Hdoc;
      cbn [get_docstring]; unfold body_docstring;
      destruct body as [|[| | |[| | |[]|]|] body]; try reflexivity;
      discriminate. }
  assert (Hgrab : grab_doc cleandoc docstring_parse n = docstring_parse "None")
    by (unfold grab_doc; rewrite Hget; reflexivity).
  split; [exact Hgrab|].
  exists parsed. rewrite Hgrab. auto.
Qed.

Lemma grab_doc_sentinel_witness :
  let parse := fun text : string => Ok (mkDocstring (Some text) [] None) in
  let n := FunctionDef "run" [Other []] [Name "staticmethod"] in
  grab_doc (fun s => s) parse n = parse "None"
  /\ exists d, grab_doc (fun s => s) parse n = Ok d
               /\ short_description d = Some sentinel.
Proof.
  intros parse n.
  apply (grab_doc_sentinel (fun s => s) parse n
           (mkDocstring (Some "None") [] None));
    reflexivity.
Defined.

(* ================================================================== *)
(** ** The traversal only adds *)

Lemma rbind_ok {A B : Type} (m : result A) (k : A -> result B) (b : B) :
  rbind m k = Ok b -> exists a, m = Ok a /\ k a = Ok b.
Proof. destruct m as [a|e]; simpl; [eauto | discriminate]. Qed.

Ltac bind_inv H :=
  let a := fresh "a" in
  let Ha := fresh "Ha" in
  apply rbind_ok in H; destruct H as (a & Ha & H).

Lemma grows_refl (self : Doc.t) : grows self self.
Proof. constructor; eauto. Qed.

Lemma grows_trans (a b c : Doc.t) : grows a b -> grows b c -> grows a c.
Proof.
  intros [F1 E1 C1] [F2 E2 C2]. constructor; auto.
  intros j x Hx. destruct (C1 j x Hx) as (y & Hy & Hn & Hm).
  destruct (C2 j y Hy) as (z & Hz & Hn' & Hm').
  exists z. split; [exact Hz|]. split; [congruence | auto].
Qed.

Lemma grows_set_module (self : Doc.t) (d : Docstring) :
  grows self (Doc.set_module self d).
Proof. constructor; cbn; eauto. Qed.

Lemma grows_append_function (self : Doc.t) (name_ : string) (d : Docstring)
    (tags : list string) :
  grows self (Doc.append_function self name_ d tags).
Proof.
  constructor; cbn [Doc.append_function Doc.functions Doc.endpoints Doc.classes].
  - intros k Hk. now apply mem_set_mono.
  - intros k Hk. now apply classify_all_mono.
  - eauto.
Qed.

Lemma grows_append_class (self : Doc.t) (name_ : string) (d : Docstring)
    (tags : list string) :
  grows self (fst (Doc.append_class self name_ d tags)).
Proof.
  constructor; cbn; eauto.
  intros j c Hc. exists c. split; [|auto].
  rewrite nth_error_app1; [exact Hc|].
  apply nth_error_Some. congruence.
Qed.

Lemma nth_error_replace {A : Type} (l : list A) (ref j : nat) (c x : A) :
  nth_error l ref = Some c ->
  nth_error (firstn ref l ++ x :: skipn (S ref) l) j
  = if Nat.eqb j ref then Some x else nth_error l j.
Proof.
  revert ref j; induction l as [|y l IH]; intros ref j H.
  - destruct ref; discriminate.
  - destruct ref as [|ref]; destruct j as [|j]; cbn in *; try reflexivity.
    exact (IH ref j H).
Qed.

Lemma classes_append_method (self : Doc.t) (ref j : nat) (c : ClassDoc.t)
    (name_ : string) (d : Docstring) :
  nth_error (Doc.classes self) ref = Some c ->
  nth_error (Doc.classes (Doc.append_method self ref name_ d)) j
  = if Nat.eqb j ref then Some (ClassDoc.append_method c name_ d)
    else nth_error (Doc.classes self) j.
Proof.
  intro H. cbn [Doc.append_method Doc.classes]. rewrite H.
  exact (nth_error_replace _ ref j c _ H).
Qed.

Lemma grows_append_method (self : Doc.t) (ref : nat) (name_ : string)
    (d : Docstring) :
  grows self (Doc.append_method self ref name_ d).
Proof.
  constructor; [cbn; eauto | cbn; eauto |].
  intros j c Hc.
  destruct (nth_error (Doc.classes self) ref) as [c0|] eqn:E.
  - rewrite (classes_append_method self ref j c0 name_ d E).
    destruct (Nat.eqb j ref) eqn:Ej.
    + apply Nat.eqb_eq in Ej. subst j.
      assert (c0 = c) by congruence. subst c0.
      eexists. split; [reflexivity|]. split; [reflexivity|].
      intros k Hk. cbn. now apply mem_set_mono.
    + eauto.
  - cbn [Doc.append_method Doc.classes]. rewrite E. eauto.
Qed.

(** Induction on a node with the property known of all its children. *)
Section NodeInduction.
Variable P : node -> Prop.
Hypothesis HModule : forall body, Forall P body -> P (Module body).
Hypothesis HFunctionDef :
  forall name_ body ds, Forall P body -> P (FunctionDef name_ body ds).
Hypothesis HClassDef :
  forall name_ body ds, Forall P body -> P (ClassDef name_ body ds).
Hypothesis HExpr : forall e, P (Expr e).
Hypothesis HOther : forall cs, Forall P cs -> P (Other cs).

Fixpoint node_children_ind (n : node) : P n :=
  let all :=
    fix all (l : list node) : Forall P l :=
      match l with
      | [] => Forall_nil P
      | c :: r => Forall_cons c (node_children_ind c) (all r)
      end in
  match n with
  | Module body => HModule body (all body)
  | FunctionDef name_ body ds => HFunctionDef name_ body ds (all body)
  | ClassDef name_ body ds => HClassDef name_ body ds (all body)
  | Expr e => HExpr e
  | Other cs => HOther cs (all cs)
  end.
End NodeInduction.

Section Traversal.
Variable cleandoc : string -> string.
Variable docstring_parse : string -> result Docstring.

Local Abbreviation visit := (visit cleandoc docstring_parse).
Local Abbreviation visit_all := (visit_all cleandoc docstring_parse).
Local Abbreviation methods_loop := (methods_loop cleandoc docstring_parse).
Local Abbreviation grab_doc := (grab_doc cleandoc docstring_parse).
Local Abbreviation visit_grows_at := (visit_grows_at cleandoc docstring_parse).
Local Abbreviation grows_below := (grows_below cleandoc docstring_parse).

(** The equations of [visit], one per method of the visitor. *)
Lemma visit_Module_eq (body : list node) (self : Doc.t) :
  visit (Module body) self
  = (d <- grab_doc (Module body) ;;
     visit_all body (Doc.set_module self d)).
Proof. reflexivity. Qed.

Lemma visit_FunctionDef_eq (name_ : string) (body : list node)
    (ds : list expr) (self : Doc.t) :
  visit (FunctionDef name_ body ds) self
  = (d <- grab_doc (FunctionDef name_ body ds) ;;
     names <- decorator_names (FunctionDef name_ body ds) ;;
     visit_all body (Doc.append_function self name_ d names)).
Proof. reflexivity. Qed.

Lemma visit_ClassDef_eq (name_ : string) (body : list node)
    (ds : list expr) (self : Doc.t) :
  visit (ClassDef name_ body ds) self
  = (d <- grab_doc (ClassDef name_ body ds) ;;
     names <- decorator_names (ClassDef name_ body ds) ;;
     self2 <- methods_loop (List.length (Doc.classes self)) body
                (fst (Doc.append_class self name_ d names)) ;;
     visit_all body self2).
Proof. reflexivity. Qed.

Lemma visit_Other_eq (cs : list node) (self : Doc.t) :
  visit (Other cs) self = visit_all cs self.
Proof. reflexivity. Qed.

Lemma visit_all_cons (c : node) (r : list node) (self : Doc.t) :
  visit_all (c :: r) self = (self' <- visit c self ;; visit_all r self').
Proof. reflexivity. Qed.

(** Every visit ends with the generic visit of the children. *)
Lemma visit_ends_with_children (n : node) (self self' : Doc.t) :
  visit n self = Ok self' ->
  exists self0, visit_all (children n) self0 = Ok self'.
Proof.
  destruct n as [body|f body ds|c body ds|e|cs]; intro H.
  - rewrite visit_Module_eq in H. bind_inv H. eauto.
  - rewrite visit_FunctionDef_eq in H. bind_inv H. bind_inv H. eauto.
  - rewrite visit_ClassDef_eq in H. bind_inv H. bind_inv H. bind_inv H.
    eauto.
  - exists self. cbn in *. exact H.
  - rewrite visit_Other_eq in H. eauto.
Qed.

Lemma visit_all_grows_if (l : list node) :
  Forall visit_grows_at l ->
  forall self self', visit_all l self = Ok self' -> grows self self'.
Proof.
  induction 1 as [|c r Hc _ IH]; intros self self' H.
  - cbn in H. injection H as <-. apply grows_refl.
  - rewrite visit_all_cons in H. bind_inv H.
    eapply grows_trans; [apply Hc, Ha | apply IH, H].
Qed.

Lemma methods_loop_grows_if (new_class : nat) (l : list node) :
  Forall grows_below l ->
  forall self self', methods_loop new_class l self = Ok self' ->
                     grows self self'.
Proof.
  induction 1 as [|c r Hc _ IH]; intros self self' H.
  - cbn in H. injection H as <-. apply grows_refl.
  - destruct c as [body|f body ds|k body ds|e|cs];
      try (cbn in H; apply IH, H).
    change (methods_loop new_class (FunctionDef f body ds :: r) self)
      with (md <- grab_doc (FunctionDef f body ds) ;;
            self1 <- visit_all body
                       (Doc.append_method self new_class f md) ;;
            methods_loop new_class r self1) in H.
    bind_inv H. bind_inv H.
    eapply grows_trans; [apply grows_append_method|].
    eapply grows_trans; [apply (proj2 Hc), Ha0 | apply IH, H].
Qed.

Lemma grows_below_all (n : node) : grows_below n.
Proof.
  induction n as [body IH|f body ds IH|c body ds IH|e|cs IH]
    using node_children_ind.
  - assert (Hall : forall self self',
               visit_all body self = Ok self' -> grows self self')
      by (apply visit_all_grows_if; eapply Forall_impl; [|exact IH];
          intros a Ha; apply Ha).
    split; [|exact Hall]. intros self self' H.
    rewrite visit_Module_eq in H. bind_inv H.
    eapply grows_trans; [apply grows_set_module | apply Hall, H].
  - assert (Hall : forall self self',
               visit_all body self = Ok self' -> grows self self')
      by (apply visit_all_grows_if; eapply Forall_impl; [|exact IH];
          intros a Ha; apply Ha).
    split; [|exact Hall]. intros self self' H.
    rewrite visit_FunctionDef_eq in H. bind_inv H. bind_inv H.
    eapply grows_trans; [apply grows_append_function | apply Hall, H].
  - assert (Hall : forall self self',
               visit_all body self = Ok self' -> grows self self')
      by (apply visit_all_grows_if; eapply Forall_impl; [|exact IH];
          intros a Ha; apply Ha).
    split; [|exact Hall]. intros self self' H.
    rewrite visit_ClassDef_eq in H. bind_inv H. bind_inv H. bind_inv H.
    eapply grows_trans; [apply grows_append_class|].
    eapply grows_trans;
      [eapply methods_loop_grows_if; [exact IH | exact Ha1]
      | apply Hall, H].
  - split; intros self self' H; cbn in H; injection H as <-;
      apply grows_refl.
  - assert (Hall : forall self self',
               visit_all cs self = Ok self' -> grows self self')
      by (apply visit_all_grows_if; eapply Forall_impl; [|exact IH];
          intros a Ha; apply Ha).
    split; [|exact Hall]. intros self self' H.
    rewrite visit_Other_eq in H. apply Hall, H.
Qed.

Lemma visit_grows (n : node) (self self' : Doc.t) :
  visit n self = Ok self' -> grows self self'.
Proof. apply grows_below_all. Qed.

Lemma visit_all_grows (l : list node) (self self' : Doc.t) :
  visit_all l self = Ok self' -> grows self self'.
Proof.
  apply visit_all_grows_if. apply Forall_forall.
  intros c _ s s'. apply visit_grows.
Qed.

Lemma methods_loop_grows (new_class : nat) (l : list node)
    (self self' : Doc.t) :
  methods_loop new_class l self = Ok self' -> grows self self'.
Proof.
  apply methods_loop_grows_if. apply Forall_forall.
  intros c _. apply grows_below_all.
Qed.

Lemma recorded_twice_grows (cname mname : string) (a b : Doc.t) :
  grows a b -> recorded_twice cname mname a -> recorded_twice cname mname b.
Proof.
  intros [F E C] [(c & Hin & Hname & Hm) Hf]. split; [|auto].
  apply In_nth_error in Hin. destruct Hin as [j Hj].
  destruct (C j c Hj) as (c' & Hc' & Hn' & Hm').
  exists c'. split; [eapply nth_error_In, Hc'|]. split; [congruence | auto].
Qed.

(** The generic visit of a body stores every function of the body in
    [functions], and in [endpoints] when one of its tags matches. *)
Lemma visit_all_stores_functions (l : list node) (self self' : Doc.t)
    (mname : string) (mbody : list node) (mdecs : list expr) :
  visit_all l self = Ok self' ->
  In (FunctionDef mname mbody mdecs) l ->
  PyDict.mem mname (Doc.functions self') = true
  /\ forall tags,
       decorator_names (FunctionDef mname mbody mdecs) = Ok tags ->
       existsb is_endpoint_tag tags = true ->
       PyDict.mem mname (Doc.endpoints self') = true.
Proof.
  revert self; induction l as [|c r IH]; intros self H Hin; [destruct Hin|].
  rewrite visit_all_cons in H. bind_inv H.
  destruct Hin as [->|Hin]; [|eapply IH; eauto].
  pose proof (visit_all_grows _ _ _ H) as [F E _].
  rewrite visit_FunctionDef_eq in Ha. bind_inv Ha. bind_inv Ha.
  pose proof (visit_all_grows _ _ _ Ha) as [F' E' _].
  split.
  - apply F, F'. cbn. apply mem_set_same.
  - intros tags Htags Hmatch. apply E, E'.
    assert (a1 = tags) by congruence. subst a1.
    cbn [Doc.append_function Doc.endpoints].
    rewrite classify_all_mem, Hmatch. apply orb_true_r.
Qed.

(** The loop of [visit_ClassDef] stores every function of the body
    among the methods of the new class. *)
Lemma methods_loop_stores_methods (new_class : nat) (l : list node)
    (self self' : Doc.t) (c : ClassDoc.t)
    (mname : string) (mbody : list node) (mdecs : list expr) :
  methods_loop new_class l self = Ok self' ->
  nth_error (Doc.classes self) new_class = Some c ->
  In (FunctionDef mname mbody mdecs) l ->
  exists c', nth_error (Doc.classes self') new_class = Some c'
             /\ ClassDoc.name c' = ClassDoc.name c
             /\ PyDict.mem mname (ClassDoc.methods c') = true.
Proof.
  revert self c; induction l as [|x r IH]; intros self c H Hc Hin;
    [destruct Hin|].
  destruct x as [body|f body ds|k body ds|e|cs];
    try (destruct Hin as [Hx|Hin]; [discriminate Hx|];
         cbn in H; eapply IH; eauto).
  change (methods_loop new_class (FunctionDef f body ds :: r) self)
    with (md <- grab_doc (FunctionDef f body ds) ;;
          self1 <- visit_all body
                     (Doc.append_method self new_class f md) ;;
          methods_loop new_class r self1) in H.
  bind_inv H. bind_inv H.
  assert (Hc1 : nth_error (Doc.classes (Doc.append_method self new_class f a))
                  new_class
                = Some (ClassDoc.append_method c f a)).
  { rewrite (classes_append_method self new_class new_class c f a Hc).
    now rewrite Nat.eqb_refl. }
  destruct (grows_classes _ _ (visit_all_grows _ _ _ Ha0) _ _ Hc1)
    as (c2 & Hc2 & Hn2 & Hm2).
  destruct Hin as [Hx|Hin].
  - injection Hx as -> -> ->.
    destruct (grows_classes _ _ (methods_loop_grows _ _ _ _ H) _ _ Hc2)
      as (c3 & Hc3 & Hn3 & Hm3).
    exists c3. split; [exact Hc3|]. split.
    + rewrite Hn3, Hn2. reflexivity.
    + apply Hm3, Hm2. cbn. apply mem_set_same.
  - destruct (IH a0 c2 H Hc2 Hin) as (c3 & Hc3 & Hn3 & Hm3).
    exists c3. split; [exact Hc3|]. split; [|exact Hm3].
    rewrite Hn3, Hn2. reflexivity.
Qed.

(** One visit of a class definition. *)
Lemma visit_ClassDef_records (cname : string) (cbody : list node)
    (cdecs : list expr) (self self' : Doc.t)
    (mname : string) (mbody : list node) (mdecs : list expr) :
  visit (ClassDef cname cbody cdecs) self = Ok self' ->
  In (FunctionDef mname mbody mdecs) cbody ->
  recorded_twice cname mname self'
  /\ forall tags,
       decorator_names (FunctionDef mname mbody mdecs) = Ok tags ->
       existsb is_endpoint_tag tags = true ->
       PyDict.mem mname (Doc.endpoints self') = true.
Proof.
  intros H Hin. rewrite visit_ClassDef_eq in H.
  bind_inv H. bind_inv H. bind_inv H.
  assert (Hnew : nth_error
                   (Doc.classes (fst (Doc.append_class self cname a a0)))
                   (List.length (Doc.classes self))
                 = Some (ClassDoc.init cname a a0)).
  { cbn. rewrite nth_error_app2 by lia. now rewrite Nat.sub_diag. }
  destruct (methods_loop_stores_methods _ _ _ _ _ _ _ _ Ha1 Hnew Hin)
    as (c1 & Hc1 & Hn1 & Hm1).
  destruct (grows_classes _ _ (visit_all_grows _ _ _ H) _ _ Hc1)
    as (c2 & Hc2 & Hn2 & Hm2).
  destruct (visit_all_stores_functions _ _ _ _ _ _ H Hin) as [Hf He].
  split; [split|exact He]; [|exact Hf].
  exists c2. split; [eapply nth_error_In, Hc2|]. split; [|auto].
  rewrite Hn2, Hn1. reflexivity.
Qed.

Lemma visit_all_reaches (l : list node) (k : node) (self self' : Doc.t) :
  visit_all l self = Ok self' ->
  In k l ->
  exists s1 s2, visit k s1 = Ok s2 /\ grows s2 self'.
Proof.
  revert self; induction l as [|c r IH]; intros self H Hin; [destruct Hin|].
  rewrite visit_all_cons in H. bind_inv H.
  destruct Hin as [->|Hin]; [|eapply IH; eauto].
  exists self, a. split; [exact Ha | eapply visit_all_grows, H].
Qed.

(** Every class definition in or below a visited node. *)
Lemma visit_records_within (n : node) (cname : string)
    (cbody : list node) (cdecs : list expr)
    (mname : string) (mbody : list node) (mdecs : list expr) :
  within (ClassDef cname cbody cdecs) n ->
  In (FunctionDef mname mbody mdecs) cbody ->
  forall self self',
    visit n self = Ok self' ->
    recorded_twice cname mname self'
    /\ forall tags,
         decorator_names (FunctionDef mname mbody mdecs) = Ok tags ->
         existsb is_endpoint_tag tags = true ->
         PyDict.mem mname (Doc.endpoints self') = true.
Proof.
  intros Hw Hin. induction Hw as [|n k Hk Hw IH]; intros self self' H.
  - eapply visit_ClassDef_records; eauto.
  - destruct (visit_ends_with_children _ _ _ H) as [s0 Hs0].
    destruct (visit_all_reaches _ _ _ _ Hs0 Hk) as (s1 & s2 & Hv & Hg).
    destruct (IH _ _ Hv) as [Hr He]. split.
    + eapply recorded_twice_grows; eauto.
    + intros tags Ht Hm. eapply (grows_endpoints _ _ Hg), He; eauto.
Qed.

End Traversal.

(** Every entry of [functions] is rendered by [compile], among the
    functions or among the endpoints. *)
Lemma compile_renders_functions (self : Doc.t) (name_ : string) (d : Docstring) :
  In (name_, d) (Doc.functions self) ->
  In (function_to_markdown name_ d) (snd (fst (compile_value self)))
  \/ exists http,
       In (name_, function_to_markdown name_ d, http)
          (snd (compile_value self)).
Proof.
  intro Hin. unfold compile_value. cbn [fst snd].
  destruct (PyDict.get name_ (Doc.endpoints self)) as [http|] eqn:E.
  - right. exists http. apply in_flat_map. exists (name_, d).
    split; [exact Hin|]. cbn [fst snd]. rewrite E. now left.
  - left. apply in_map_iff. exists (name_, d). split; [reflexivity|].
    apply filter_In. split; [exact Hin|].
    unfold PyDict.mem. cbn [fst]. now rewrite E.
Qed.

(** C6.  After a traversal that ends without an exception, for every
    class definition in the tree and every function defined directly in
    its body: a class of that name in [classes] lists the function among
    its methods; [functions] has an entry under the function's name, and
    [compile] renders that entry among the functions or among the
    endpoints; and the name is among the endpoints when one of the
    function's decorator tags matches the classification rule. *)
Theorem methods_recorded_twice
    (cleandoc : string -> string)
    (docstring_parse : string -> result Docstring)
    (filename : string) (tree : node) (doc : Doc.t)
    (cname : string) (cbody : list node) (cdecs : list expr)
    (mname : string) (mbody : list node) (mdecs : list expr) :
  run_visitor cleandoc docstring_parse filename tree = Ok doc ->
  within (ClassDef cname cbody cdecs) tree ->
  In (FunctionDef mname mbody mdecs) cbody ->
  (exists c, In c (Doc.classes doc)
             /\ ClassDoc.name c = cname
             /\ PyDict.mem mname (ClassDoc.methods c) = true)
  /\ (exists d class_docs func_docs endpoint_docs,
        PyDict.get mname (Doc.functions doc) = Some d
        /\ compile doc = (Ok (class_docs, func_docs, endpoint_docs), doc)
        /\ (In (function_to_markdown mname d) func_docs
            \/ exists http,
                 In (mname, function_to_markdown mname d, http)
                    endpoint_docs))
  /\ (forall tags,
        decorator_names (FunctionDef mname mbody mdecs) = Ok tags ->
        existsb is_endpoint_tag tags = true ->
        PyDict.mem mname (Doc.endpoints doc) = true).
Proof.
  intros Hrun Hw Hin. unfold run_visitor in Hrun.
  destruct (visit_records_within cleandoc docstring_parse tree cname cbody
              cdecs mname mbody mdecs Hw Hin _ _ Hrun) as [[Hc Hf] He].
  split; [exact Hc|]. split; [|exact He].
  unfold PyDict.mem in Hf.
  destruct (PyDict.get mname (Doc.functions doc)) as [d|] eqn:Hd;
    [|discriminate].
  exists d, (fst (fst (compile_value doc))), (snd (fst (compile_value doc))),
    (snd (compile_value doc)).
  split; [reflexivity|]. split.
  - rewrite compile_eq. now destruct (compile_value doc) as [[a b] c].
  - apply compile_renders_functions, get_In, Hd.
Qed.

Lemma methods_recorded_twice_witness :
  let parse := fun text : string => Ok (mkDocstring (Some text) [] None) in
  let mdecs := [Call (Attribute (Name "app") "get") [Constant (CStr "/run")]] in
  let mbody := [Expr (Constant (CStr "Runs it."))] in
  let cbody := [Expr (Constant (CStr "A runner."));
                FunctionDef "run" mbody mdecs] in
  let tree := Module [ClassDef "Runner" cbody []] in
  exists doc,
    run_visitor (fun s => s) parse "m.py" tree = Ok doc
    /\ (exists c, In c (Doc.classes doc)
                  /\ ClassDoc.name c = "Runner"
                  /\ PyDict.mem "run" (ClassDoc.methods c) = true)
    /\ (exists d class_docs func_docs endpoint_docs,
          PyDict.get "run" (Doc.functions doc) = Some d
          /\ compile doc = (Ok (class_docs, func_docs, endpoint_docs), doc)
          /\ (In (function_to_markdown "run" d) func_docs
              \/ exists http,
                   In ("run", function_to_markdown "run" d, http)
                      endpoint_docs))
    /\ (forall tags,
          decorator_names (FunctionDef "run" mbody mdecs) = Ok tags ->
          existsb is_endpoint_tag tags = true ->
          PyDict.mem "run" (Doc.endpoints doc) = true).
Proof.
  intros parse mdecs mbody cbody tree.
  eexists. split; [vm_compute; reflexivity|].
  apply (methods_recorded_twice (fun s => s) parse "m.py" tree _
           "Runner" cbody [] "run" mbody mdecs).
  - vm_compute. reflexivity.
  - eapply within_child; [|apply within_self]. left. reflexivity.
  - right. left. reflexivity.
Defined.

(* ================================================================== *)
(** ** More on the decorator classifier *)

Lemma str_items_literals (args_ : list expr) :
  forallb literal_is_str args_ = true ->
  str_items (constant_args args_) = Ok (literal_strings args_).
Proof.
  intro H. rewrite constant_args_eq. unfold literal_strings.
  induction args_ as [|a args_ IH]; [reflexivity|].
  cbn [forallb] in H. apply andb_true_iff in H. destruct H as [Ha Hr].
  specialize (IH Hr).
  destruct a as [| | |[]|]; simpl in *; try discriminate; try exact IH.
  rewrite IH. reflexivity.
Qed.

Lemma decorator_step_supported (names : list string) (e : expr) :
  supported e = true ->
  decorator_step names e = Ok (names ++ tag_of e)%list.
Proof.
  intro H. destruct e as [id|v a|f args_|c|cs]; simpl;
    rewrite ?app_nil_r; try reflexivity.
  destruct f as [id|v a|f' args'|c|cs]; simpl in H; try discriminate;
    unfold join_values; rewrite (str_items_literals _ H); reflexivity.
Qed.

Lemma decorator_step_unsupported (names : list string) (e : expr) :
  supported e = false -> exists x, decorator_step names e = Raise x.
Proof.
  intro H. destruct e as [id|v a|f args_|c|cs]; simpl in H; try discriminate.
  assert (Hj : forallb literal_is_str args_ = false ->
               exists x, join_values ", " (constant_args args_) = Raise x).
  { clear. intro H. rewrite constant_args_eq. unfold join_values.
    induction args_ as [|a args_ IH]; [discriminate|].
    cbn [forallb] in H. apply andb_false_iff in H.
    destruct a as [| | |[]|]; simpl in *;
      try (destruct H as [H|H]; [discriminate | exact (IH H)]);
      try (exists TypeError; reflexivity).
    destruct H as [H|H]; [discriminate|].
    destruct (IH H) as [x Hx].
    destruct (str_items _) as [l|y]; [discriminate|].
    exists y. reflexivity. }
  destruct f as [id|v a|f' args'|c|cs]; simpl;
    try (exists AttributeError; reflexivity);
    destruct (Hj H) as [x ->]; exists x; reflexivity.
Qed.

Lemma decorator_loop_closed (l : list expr) (names : list string) :
  forallb supported l = true ->
  decorator_loop l names = Ok (names ++ flat_map tag_of l)%list.
Proof.
  revert names; induction l as [|e l IH]; intros names H.
  - cbn. now rewrite app_nil_r.
  - cbn [forallb] in H. apply andb_true_iff in H. destruct H as [He Hl].
    cbn [decorator_loop flat_map]. rewrite (decorator_step_supported _ _ He).
    cbn [rbind]. rewrite (IH _ Hl). now rewrite <- app_assoc.
Qed.

Lemma decorator_loop_raises (l : list expr) (names : list string) :
  forallb supported l = false -> exists x, decorator_loop l names = Raise x.
Proof.
  revert names; induction l as [|e l IH]; intros names H; [discriminate|].
  cbn [forallb] in H. cbn [decorator_loop].
  destruct (supported e) eqn:He.
  - rewrite (decorator_step_supported _ _ He). cbn [rbind].
    apply IH. exact H.
  - destruct (decorator_step_unsupported names e He) as [x ->].
    exists x. reflexivity.
Qed.

(** X1.  On a function or class whose decorators are all of a shape the
    classifier has a case for, [decorator_names] returns one tag per
    name or call decorator, in decorator order: the name itself, or the
    callee, a colon and the string literals of the call joined by a
    comma and a space.  Other arguments and decorators that are neither
    a name nor a call add nothing. *)
Theorem decorator_names_tags (n : node) (name_ : string) (body : list node)
    (ds : list expr) :
  n = FunctionDef name_ body ds \/ n = ClassDef name_ body ds ->
  forallb supported ds = true ->
  decorator_names n = Ok (flat_map tag_of ds).
Proof.
  intros [-> | ->] H; cbn [decorator_names];
    now rewrite (decorator_loop_closed _ [] H).
Qed.

Lemma decorator_names_tags_witness :
  decorator_names
    (FunctionDef "list_users" []
       [Name "login_required";
        Attribute (Name "app") "cached";
        Call (Attribute (Name "app") "get")
          [Constant (CStr "/users"); Name "limit"; Constant (CStr "v1")]])
  = Ok ["login_required"; "get:/users, v1"].
Proof.
  apply (decorator_names_tags _ "list_users" []
           [Name "login_required";
            Attribute (Name "app") "cached";
            Call (Attribute (Name "app") "get")
              [Constant (CStr "/users"); Name "limit"; Constant (CStr "v1")]]).
  - left. reflexivity.
  - reflexivity.
Defined.

(** X2.  [decorator_names] on a function definition returns a list
    exactly when every decorator is of a supported shape; with a call
    whose callee is neither a name nor an attribute, or with a literal
    argument that is not a string, it raises. *)
Theorem decorator_names_ok_iff (name_ : string) (body : list node)
    (ds : list expr) :
  (exists names, decorator_names (FunctionDef name_ body ds) = Ok names)
  <-> forallb supported ds = true.
Proof.
  cbn [decorator_names]. split.
  - intros [names H]. destruct (forallb supported ds) eqn:E; [reflexivity|].
    destruct (decorator_loop_raises ds [] E) as [x Hx]. congruence.
  - intro H. rewrite (decorator_loop_closed _ [] H). eauto.
Qed.

(* ================================================================== *)
(** ** More on the renderer *)

(** X3.  The parameter table is the empty string exactly for the empty
    parameter list: every non-empty list gives a table. *)
Theorem param_table_from_empty_iff (ps : list DocstringParam) :
  param_table_from ps = "" <-> ps = [].
Proof.
  split; [|intros ->; reflexivity].
  destruct ps as [|p ps]; [reflexivity|]. intro H.
  unfold param_table_from in H. cbn [List.length Nat.eqb] in H.
  rewrite fold_left_append in H. discriminate H.
Qed.

(** X4.  A class without methods is rendered as the header, the
    description and the separator, with no table and no function block.
    A class whose methods are all named [__init__] gets the head of the
    table with no line under it. *)
Theorem class_table_edge_cases (self : ClassDoc.t) :
  (ClassDoc.methods self = [] ->
   ClassDoc.method_table self = ""
   /\ ClassDoc.str self
      = "# `class` " ++ ClassDoc.name self ++ nl
        ++ ClassDoc.desc self ++ nl ++ nl ++ nl ++ "---" ++ nl)
  /\ (ClassDoc.methods self <> [] ->
      (forall item, In item (ClassDoc.methods self) ->
                    fst item = "__init__") ->
      ClassDoc.method_table self
      = nl ++ "**Methods:**" ++ nl ++ nl
        ++ "| Name | Description | Returns |" ++ nl
        ++ "| --- | --- | --- |" ++ nl).
Proof.
  split.
  - intro H. unfold ClassDoc.str, ClassDoc.base, ClassDoc.method_table.
    rewrite H. split; reflexivity.
  - intros Hne Hall. rewrite (method_table_eq self Hne).
    replace (rows (ClassDoc.methods self)) with "";
      [apply append_empty_r|].
    unfold rows. induction (ClassDoc.methods self) as [|item ms IH];
      [reflexivity|].
    cbn [filter]. unfold listed at 1.
    rewrite (Hall item (or_introl eq_refl)). cbn [String.eqb negb].
    destruct ms as [|m ms']; [reflexivity|].
    apply IH; [discriminate|]. intros i Hi. apply Hall. now right.
Qed.

Lemma class_table_edge_cases_witness :
  let c0 := ClassDoc.init "Empty" (mkDocstring (Some "None") [] None) [] in
  let c1 := ClassDoc.append_method c0 "__init__"
              (mkDocstring (Some "Builds it.") [] None) in
  (ClassDoc.method_table c0 = ""
   /\ ClassDoc.str c0
      = "# `class` " ++ ClassDoc.name c0 ++ nl
        ++ ClassDoc.desc c0 ++ nl ++ nl ++ nl ++ "---" ++ nl)
  /\ ClassDoc.method_table c1
     = nl ++ "**Methods:**" ++ nl ++ nl
       ++ "| Name | Description | Returns |" ++ nl
       ++ "| --- | --- | --- |" ++ nl.
Proof.
  intros c0 c1. split.
  - apply (proj1 (class_table_edge_cases c0)). reflexivity.
  - apply (proj2 (class_table_edge_cases c1)).
    + discriminate.
    + intros item [<- | []]. reflexivity.
Defined.

(** X5.  A method whose short description is not the text [None] has
    its block in the expanded section, at its place in insertion order.
    This holds also when the description is absent (Python's [None], as
    after an empty doc-string): the block is written, with the text
    [None] as its description line, the same text as for the sentinel,
    whose block is left out. *)
Theorem described_method_rendering
    (self : ClassDoc.t) (before after : PyDict.t Docstring)
    (name_ : string) (d : Docstring) :
  ClassDoc.methods self = (before ++ (name_, d) :: after)%list ->
  short_description d <> Some "None" ->
  ClassDoc.str self
  = ClassDoc.base self ++ blocks before
    ++ (nl ++ function_to_markdown name_ d) ++ blocks after
  /\ (short_description d = None ->
      function_to_markdown name_ d
      = function_to_markdown name_
          (mkDocstring (Some "None") (params d) (returns d))).
Proof.
  intros Hms Hd. split; [|intro Hn; unfold function_to_markdown;
                          rewrite Hn; reflexivity].
  unfold ClassDoc.str. rewrite expand_eq, Hms, blocks_app.
  unfold blocks at 2. cbn [filter]. unfold has_text at 1. cbn [snd].
  assert (E : opt_eqb (short_description d) sentinel = false).
  { unfold opt_eqb, sentinel. destruct (short_description d) as [s|];
      [|reflexivity].
    apply String.eqb_neq. congruence. }
  rewrite E. cbn [negb map cat fold_right]. unfold block at 1.
  cbn [fst snd]. fold (cat (map block (filter has_text after))).
  fold (blocks after). now rewrite !append_assoc.
Qed.

Lemma described_method_rendering_witness :
  let d_none := mkDocstring None [] None in
  let d_run := mkDocstring (Some "Runs it.") [] None in
  let c := ClassDoc.mk "Runner" (mkDocstring None [] None)
             [("run", d_run); ("stop", d_none)] [] in
  ClassDoc.str c
  = ClassDoc.base c ++ blocks [("run", d_run)]
    ++ (nl ++ function_to_markdown "stop" d_none) ++ blocks []
  /\ (short_description d_none = None ->
      function_to_markdown "stop" d_none
      = function_to_markdown "stop"
          (mkDocstring (Some "None") (params d_none) (returns d_none))).
Proof.
  intros d_none d_run c.
  apply (described_method_rendering c [("run", d_run)] [] "stop" d_none).
  - reflexivity.
  - discriminate.
Defined.

(* ================================================================== *)
(** ** More on the documentation model *)

Section MoreDictFacts.
Context {V : Type}.
Implicit Types (d : PyDict.t V) (k : string) (v : V).

Lemma set_fresh k v d :
  PyDict.get k d = None -> PyDict.set k v d = (d ++ [(k, v)])%list.
Proof.
  induction d as [|[k0 v0] d IH]; simpl; [reflexivity|].
  destruct (k =? k0); [discriminate|]. intro H. now rewrite IH.
Qed.

Lemma keys_set_present k v d :
  PyDict.mem k d = true -> PyDict.keys (PyDict.set k v d) = PyDict.keys d.
Proof.
  unfold PyDict.mem, PyDict.keys.
  induction d as [|[k0 v0] d IH]; simpl; [discriminate|].
  destruct (k =? k0) eqn:E; simpl; [reflexivity|].
  intro H. now rewrite IH.
Qed.

Lemma In_mem k v d : In (k, v) d -> PyDict.mem k d = true.
Proof.
  unfold PyDict.mem. induction d as [|[k0 v0] d IH]; simpl; [tauto|].
  intros [H|H].
  - injection H as -> ->. now rewrite String.eqb_refl.
  - destruct (k =? k0); [reflexivity | auto].
Qed.

End MoreDictFacts.

Lemma classify_all_get_other (name_ k : string) (tags : list string)
    (e : PyDict.t string) :
  k <> name_ ->
  PyDict.get k (fold_left (fun e tag => Doc.classify name_ tag e) tags e)
  = PyDict.get k e.
Proof.
  intro Hne. revert e; induction tags as [|t tags IH]; intro e; simpl;
    [reflexivity|].
  rewrite IH, classify_eq. destruct (is_endpoint_tag t); [|reflexivity].
  now apply get_set_other.
Qed.

(** X6.  [append_method] twice under one name keeps the second
    doc-string only: the class is the one a single call with the second
    doc-string gives.  The name stays where it was first inserted (a new
    name goes to the end), and the other methods keep their
    doc-strings. *)
Theorem append_method_last_write_wins
    (self : ClassDoc.t) (name_ : string) (d1 d2 : Docstring) :
  ClassDoc.append_method (ClassDoc.append_method self name_ d1) name_ d2
  = ClassDoc.append_method self name_ d2
  /\ PyDict.get name_
       (ClassDoc.methods (ClassDoc.append_method self name_ d2)) = Some d2
  /\ PyDict.keys (ClassDoc.methods (ClassDoc.append_method self name_ d2))
     = (if PyDict.mem name_ (ClassDoc.methods self)
        then PyDict.keys (ClassDoc.methods self)
        else PyDict.keys (ClassDoc.methods self) ++ [name_])%list
  /\ (forall k, k <> name_ ->
        PyDict.get k (ClassDoc.methods (ClassDoc.append_method self name_ d2))
        = PyDict.get k (ClassDoc.methods self)).
Proof.
  split; [|split; [|split]].
  - unfold ClassDoc.append_method. cbn. now rewrite set_set_same.
  - cbn. apply get_set_same.
  - cbn [ClassDoc.append_method ClassDoc.methods].
    destruct (PyDict.mem name_ (ClassDoc.methods self)) eqn:E.
    + now apply keys_set_present.
    + unfold PyDict.mem in E.
      destruct (PyDict.get name_ (ClassDoc.methods self)) eqn:G;
        [discriminate|].
      rewrite (set_fresh _ _ _ G). unfold PyDict.keys. now rewrite map_app.
  - intros k Hk. cbn. now apply get_set_other.
Qed.

Lemma append_method_last_write_wins_witness :
  let c := ClassDoc.append_method
             (ClassDoc.append_method
                (ClassDoc.init "Runner" (mkDocstring None [] None) [])
                "run" (mkDocstring (Some "Old.") [] None))
             "stop" (mkDocstring (Some "Stops it.") [] None) in
  PyDict.get "stop"
    (ClassDoc.methods
       (ClassDoc.append_method c "run" (mkDocstring (Some "New.") [] None)))
  = PyDict.get "stop" (ClassDoc.methods c).
Proof.
  intro c.
  apply (proj2 (proj2 (proj2
           (append_method_last_write_wins c "run"
              (mkDocstring None [] None)
              (mkDocstring (Some "New.") [] None))))).
  discriminate.
Defined.

(** X7.  [append_class] never looks at the classes it has: it puts a
    class with no methods at the end, also under a name already used,
    and returns the reference to it.  [compile] then gives the class
    texts it gave before followed by the text of the new class, and the
    same function and endpoint outputs. *)
Theorem append_class_then_compile
    (self : Doc.t) (name_ : string) (d : Docstring) (tags : list string) :
  let new_class := ClassDoc.init name_ d tags in
  let self' := fst (Doc.append_class self name_ d tags) in
  let ref := snd (Doc.append_class self name_ d tags) in
  Doc.classes self' = (Doc.classes self ++ [new_class])%list
  /\ nth_error (Doc.classes self') ref = Some new_class
  /\ exists class_docs func_docs endpoint_docs,
       compile self = (Ok (class_docs, func_docs, endpoint_docs), self)
       /\ compile self'
          = (Ok ((class_docs ++ [ClassDoc.str new_class])%list,
                 func_docs, endpoint_docs), self').
Proof.
  intros new_class self' ref. split; [reflexivity|]. split.
  - unfold self', ref. cbn.
    rewrite nth_error_app2 by lia. now rewrite Nat.sub_diag.
  - exists (fst (fst (compile_value self))), (snd (fst (compile_value self))),
      (snd (compile_value self)).
    rewrite !compile_eq. split.
    + now destruct (compile_value self) as [[a b] c].
    + unfold compile_value, self'. cbn [Doc.append_class fst snd Doc.classes
        Doc.functions Doc.endpoints]. now rewrite map_app.
Qed.

(** X8.  [append_function] stores the doc-string under the name and
    touches nothing else of the [Doc] but the endpoint of that name:
    name, module and classes are the same, and so are the doc-strings
    and endpoints of the other names.  When no tag matches, [endpoints]
    is left as it is: a descriptor stored by an earlier definition of
    the name stays. *)
Theorem append_function_frame
    (self : Doc.t) (name_ : string) (d : Docstring) (tags : list string) :
  let self' := Doc.append_function self name_ d tags in
  PyDict.get name_ (Doc.functions self') = Some d
  /\ Doc.name self' = Doc.name self
  /\ Doc.module self' = Doc.module self
  /\ Doc.classes self' = Doc.classes self
  /\ (forall k, k <> name_ ->
        PyDict.get k (Doc.functions self') = PyDict.get k (Doc.functions self)
        /\ PyDict.get k (Doc.endpoints self')
           = PyDict.get k (Doc.endpoints self))
  /\ (existsb is_endpoint_tag tags = false ->
      Doc.endpoints self' = Doc.endpoints self).
Proof.
  intro self'. unfold self'.
  cbn [Doc.append_function Doc.functions Doc.endpoints Doc.name Doc.module
       Doc.classes].
  split; [apply get_set_same|]. do 3 (split; [reflexivity|]). split.
  - intros k Hk. split; [now apply get_set_other|].
    now apply classify_all_get_other.
  - intro H. apply classify_all_skip. intros t Ht.
    destruct (is_endpoint_tag t) eqn:E; [|reflexivity].
    assert (existsb is_endpoint_tag tags = true)
      by (apply existsb_exists; eauto).
    congruence.
Qed.

Lemma append_function_frame_witness :
  let d := mkDocstring (Some "Lists the users.") [] None in
  let self := Doc.append_function (Doc.init "m.py") "users" d ["get:/users"] in
  Doc.endpoints (Doc.append_function self "users" d ["cached"])
  = Doc.endpoints self.
Proof.
  intros d self.
  apply (proj2 (proj2 (proj2 (proj2 (proj2
           (append_function_frame self "users" d ["cached"])))))).
  reflexivity.
Defined.

(* ================================================================== *)
(** ** More on [compile] *)

Lemma compile_lengths (E : PyDict.t string) (l : PyDict.t Docstring) :
  List.length
    (map (fun item : string * Docstring =>
            function_to_markdown (fst item) (snd item))
         (filter (fun item : string * Docstring =>
                    negb (PyDict.mem (fst item) E)) l))
  + List.length
      (flat_map (fun item : string * Docstring =>
                   match PyDict.get (fst item) E with
                   | Some http =>
                       [(fst item,
                         function_to_markdown (fst item) (snd item), http)]
                   | None => []
                   end) l)
  = List.length l.
Proof.
  induction l as [|item l IH]; [reflexivity|].
  cbn [filter flat_map]. unfold PyDict.mem at 1.
  destruct (PyDict.get (fst item) E); cbn [negb map List.length app].
  - rewrite <- IH. lia.
  - rewrite <- IH. reflexivity.
Qed.

Lemma compile_endpoint_names (E : PyDict.t string) (l : PyDict.t Docstring) :
  map (fun t : endpoint_tuple => fst (fst t))
      (flat_map (fun item : string * Docstring =>
                   match PyDict.get (fst item) E with
                   | Some http =>
                       [(fst item,
                         function_to_markdown (fst item) (snd item), http)]
                   | None => []
                   end) l)
  = filter (fun k => PyDict.mem k E) (PyDict.keys l).
Proof.
  unfold PyDict.keys. induction l as [|item l IH]; [reflexivity|].
  simpl flat_map. cbn [map filter]. unfold PyDict.mem at 1.
  destruct (PyDict.get (fst item) E); cbn [app map fst];
    [f_equal|]; exact IH.
Qed.


Lemma flat_map_agree {A B : Type} (f g : A -> list B) (l : list A) :
  (forall a, In a l -> f a = g a) -> flat_map f l = flat_map g l.
Proof.
  induction l as [|a l IH]; intro H; [reflexivity|].
  simpl. rewrite (H a (or_introl eq_refl)). f_equal.
  apply IH. intros b Hb. apply H. now right.
Qed.

Lemma compile_value_append_function (self : Doc.t) (name_ : string)
    (d : Docstring) (tags : list string) :
  PyDict.mem name_ (Doc.functions self) = false ->
  compile_value (Doc.append_function self name_ d tags)
  = (fst (fst (compile_value self)),
     (snd (fst (compile_value self))
      ++ match PyDict.get name_
                 (Doc.endpoints (Doc.append_function self name_ d tags)) with
         | Some _ => []
         | None => [function_to_markdown name_ d]
         end)%list,
     (snd (compile_value self)
      ++ match PyDict.get name_
                 (Doc.endpoints (Doc.append_function self name_ d tags)) with
         | Some http => [(name_, function_to_markdown name_ d, http)]
         | None => []
         end)%list).
Proof.
  intro Hfresh.
  assert (Hget : PyDict.get name_ (Doc.functions self) = None).
  { unfold PyDict.mem in Hfresh.
    destruct (PyDict.get name_ (Doc.functions self)); [discriminate|easy]. }
  assert (Hold : forall item, In item (Doc.functions self) ->
            PyDict.get (fst item)
              (Doc.endpoints (Doc.append_function self name_ d tags))
            = PyDict.get (fst item) (Doc.endpoints self)).
  { intros [k v] Hin. cbn [fst Doc.append_function Doc.endpoints].
    apply classify_all_get_other. intros ->.
    apply In_mem in Hin. congruence. }
  unfold compile_value at 1.
  cbn [Doc.append_function Doc.classes Doc.functions].
  rewrite (set_fresh _ _ _ Hget), filter_app, map_app, flat_map_app.
  unfold compile_value. cbn [fst snd].
  set (E' := Doc.endpoints (Doc.append_function self name_ d tags)) in *.
  rewrite (filter_ext_in
             (fun item : string * Docstring => negb (PyDict.mem (fst item) E'))
             (fun item : string * Docstring =>
                negb (PyDict.mem (fst item) (Doc.endpoints self)))
             (Doc.functions self))
    by (intros item Hin; unfold PyDict.mem; now rewrite (Hold item Hin)).
  rewrite (flat_map_agree
             (fun item : string * Docstring =>
                match PyDict.get (fst item) E' with
                | Some http =>
                    [(fst item,
                      function_to_markdown (fst item) (snd item), http)]
                | None => []
                end)
             (fun item : string * Docstring =>
                match PyDict.get (fst item) (Doc.endpoints self) with
                | Some http =>
                    [(fst item,
                      function_to_markdown (fst item) (snd item), http)]
                | None => []
                end)
             (Doc.functions self))
    by (intros item Hin; now rewrite (Hold item Hin)).
  simpl flat_map. cbn [filter fst snd]. unfold PyDict.mem.
  destruct (PyDict.get name_ E'); reflexivity.
Qed.

(** X10.  Adding a function under a name the [Doc] does not hold adds
    one item at the end of what [compile] returns, and changes nothing
    before it: its block at the end of the functions when none of its
    tags matches, a tuple with its last matching tag at the end of the
    endpoints otherwise. *)
Theorem append_function_then_compile
    (self : Doc.t) (name_ : string) (d : Docstring) (tags : list string)
    (class_docs func_docs : list string) (endpoint_docs : list endpoint_tuple) :
  PyDict.mem name_ (Doc.functions self) = false ->
  PyDict.mem name_ (Doc.endpoints self) = false ->
  compile self = (Ok (class_docs, func_docs, endpoint_docs), self) ->
  let self' := Doc.append_function self name_ d tags in
  let doc := function_to_markdown name_ d in
  (existsb is_endpoint_tag tags = false ->
   compile self'
   = (Ok (class_docs, (func_docs ++ [doc])%list, endpoint_docs), self'))
  /\ (forall before tag after,
        tags = (before ++ tag :: after)%list ->
        is_endpoint_tag tag = true ->
        (forall t, In t after -> is_endpoint_tag t = false) ->
        compile self'
        = (Ok (class_docs, func_docs,
               (endpoint_docs ++ [(name_, doc, tag)])%list), self')).
Proof.
  intros Hf He Hc self' doc.
  assert (Hv : compile_value self = (class_docs, func_docs, endpoint_docs))
    by (rewrite compile_eq in Hc; congruence).
  unfold self'.
  rewrite !compile_eq, (compile_value_append_function _ _ _ _ Hf), Hv.
  cbn [fst snd]. split.
  - intro Hno. cbn [Doc.append_function Doc.endpoints].
    rewrite classify_all_skip.
    + unfold PyDict.mem in He.
      destruct (PyDict.get name_ (Doc.endpoints self)); [discriminate|].
      now rewrite app_nil_r.
    + intros t Ht. destruct (is_endpoint_tag t) eqn:E; [|reflexivity].
      assert (existsb is_endpoint_tag tags = true)
        by (apply existsb_exists; eauto).
      congruence.
  - intros before tag after -> Htag Hafter.
    cbn [Doc.append_function Doc.endpoints].
    rewrite fold_left_app. cbn [fold_left].
    rewrite (classify_all_skip _ after) by exact Hafter.
    rewrite classify_eq, Htag, get_set_same. now rewrite app_nil_r.
Qed.

Lemma append_function_then_compile_witness :
  let d := mkDocstring (Some "Lists the users.") [] None in
  let self := Doc.init "m.py" in
  compile (Doc.append_function self "users" d ["cached"; "get:/users"])
  = (Ok ([], [], ([] ++ [("users", function_to_markdown "users" d,
                          "get:/users")])%list),
     Doc.append_function self "users" d ["cached"; "get:/users"]).
Proof.
  intros d self.
  apply (proj2 (append_function_then_compile self "users" d
                  ["cached"; "get:/users"] [] [] []
                  eq_refl eq_refl eq_refl) ["cached"] "get:/users" []).
  - reflexivity.
  - reflexivity.
  - intros t [].
Defined.

(* ================================================================== *)
(** ** More on the traversal *)

Section MoreTraversal.
Variable cleandoc : string -> string.
Variable docstring_parse : string -> result Docstring.

Local Abbreviation visit := (visit cleandoc docstring_parse).
Local Abbreviation visit_all := (visit_all cleandoc docstring_parse).
Local Abbreviation methods_loop := (methods_loop cleandoc docstring_parse).
Local Abbreviation grab_doc := (grab_doc cleandoc docstring_parse).

(** A node in or below a visited node is visited, and what its visit
    leaves is still there at the end. *)
Lemma visit_within_reaches (c n : node) (self self' : Doc.t) :
  within c n ->
  visit n self = Ok self' ->
  exists s1 s2, visit c s1 = Ok s2 /\ grows s2 self'.
Proof.
  intro Hw. revert self self'.
  induction Hw as [|n k Hk Hw IH]; intros self self' H.
  - exists self, self'. split; [exact H | apply grows_refl].
  - destruct (visit_ends_with_children _ _ _ _ _ H) as [s0 Hs0].
    destruct (visit_all_reaches _ _ _ _ _ _ Hs0 Hk) as (a & b & Hv & Hg).
    destruct (IH _ _ Hv) as (s1 & s2 & Hc & Hg').
    exists s1, s2. split; [exact Hc | eapply grows_trans; eauto].
Qed.

(** A relation that every step of the visitor keeps is kept by every
    visit. *)
Section Kept.
Variable R : Doc.t -> Doc.t -> Prop.
Hypothesis R_refl : forall s, R s s.
Hypothesis R_trans : forall a b c, R a b -> R b c -> R a c.
Hypothesis R_set_module : forall s d, R s (Doc.set_module s d).
Hypothesis R_append_function :
  forall s n d tags, R s (Doc.append_function s n d tags).
Hypothesis R_append_class :
  forall s n d tags, R s (fst (Doc.append_class s n d tags)).
Hypothesis R_append_method :
  forall s ref n d, R s (Doc.append_method s ref n d).

Lemma visit_all_kept_if (l : list node) :
  Forall (fun c => forall s s', visit c s = Ok s' -> R s s') l ->
  forall s s', visit_all l s = Ok s' -> R s s'.
Proof using R_refl R_trans.
  induction 1 as [|c r Hc _ IH]; intros s s' H.
  - cbn in H. injection H as <-. apply R_refl.
  - rewrite visit_all_cons in H. bind_inv H.
    eapply R_trans; [apply Hc, Ha | apply IH, H].
Qed.

Lemma methods_loop_kept_if (new_class : nat) (l : list node) :
  Forall (fun c => (forall s s', visit c s = Ok s' -> R s s')
                   /\ forall s s', visit_all (children c) s = Ok s' ->
                                   R s s') l ->
  forall s s', methods_loop new_class l s = Ok s' -> R s s'.
Proof using R_refl R_trans R_append_method.
  induction 1 as [|c r Hc _ IH]; intros s s' H.
  - cbn in H. injection H as <-. apply R_refl.
  - destruct c as [body|f body ds|k body ds|e|cs];
      try (cbn in H; apply IH, H).
    change (methods_loop new_class (FunctionDef f body ds :: r) s)
      with (md <- grab_doc (FunctionDef f body ds) ;;
            s1 <- visit_all body (Doc.append_method s new_class f md) ;;
            methods_loop new_class r s1) in H.
    bind_inv H. bind_inv H.
    eapply R_trans; [apply R_append_method|].
    eapply R_trans; [apply (proj2 Hc), Ha0 | apply IH, H].
Qed.

Lemma visit_kept_below (n : node) :
  (forall s s', visit n s = Ok s' -> R s s')
  /\ forall s s', visit_all (children n) s = Ok s' -> R s s'.
Proof using All.
  assert (Hchildren : forall l,
            Forall (fun c => (forall s s', visit c s = Ok s' -> R s s')
                             /\ forall s s',
                                  visit_all (children c) s = Ok s' -> R s s')
                   l ->
            forall s s', visit_all l s = Ok s' -> R s s').
  { intros l Hl. apply visit_all_kept_if.
    eapply Forall_impl; [|exact Hl]. intros a Ha. apply Ha. }
  induction n as [body IH|f body ds IH|c body ds IH|e|cs IH]
    using node_children_ind; cbn [children].
  - split; [|exact (Hchildren _ IH)]. intros s s' H.
    rewrite visit_Module_eq in H. bind_inv H.
    eapply R_trans; [apply R_set_module | apply (Hchildren _ IH), H].
  - split; [|exact (Hchildren _ IH)]. intros s s' H.
    rewrite visit_FunctionDef_eq in H. bind_inv H. bind_inv H.
    eapply R_trans; [apply R_append_function | apply (Hchildren _ IH), H].
  - split; [|exact (Hchildren _ IH)]. intros s s' H.
    rewrite visit_ClassDef_eq in H. bind_inv H. bind_inv H. bind_inv H.
    eapply R_trans; [apply R_append_class|].
    eapply R_trans;
      [eapply methods_loop_kept_if; [exact IH | exact Ha1]
      | apply (Hchildren _ IH), H].
  - split; intros s s' H; cbn in H; injection H as <-; apply R_refl.
  - split; [|exact (Hchildren _ IH)]. intros s s' H.
    rewrite visit_Other_eq in H. apply (Hchildren _ IH), H.
Qed.

End Kept.

(** X11.  After a traversal that ends without an exception, every
    function definition in the tree, at any depth (in a class, in
    another function, under an [if]), has an entry in [functions] under
    its name, and every class definition has a class of its name in
    [classes]. *)
Theorem definitions_recorded
    (filename : string) (tree : node) (doc : Doc.t) :
  run_visitor cleandoc docstring_parse filename tree = Ok doc ->
  (forall fname fbody fdecs,
     within (FunctionDef fname fbody fdecs) tree ->
     PyDict.mem fname (Doc.functions doc) = true)
  /\ (forall cname cbody cdecs,
        within (ClassDef cname cbody cdecs) tree ->
        exists c, In c (Doc.classes doc) /\ ClassDoc.name c = cname).
Proof.
  intro Hrun. unfold run_visitor in Hrun. split.
  - intros f body ds Hw.
    destruct (visit_within_reaches _ _ _ _ Hw Hrun) as (s1 & s2 & Hv & Hg).
    rewrite visit_FunctionDef_eq in Hv. bind_inv Hv. bind_inv Hv.
    apply (grows_functions _ _ Hg).
    apply (grows_functions _ _ (visit_all_grows _ _ _ _ _ Hv)).
    cbn. apply mem_set_same.
  - intros c body ds Hw.
    destruct (visit_within_reaches _ _ _ _ Hw Hrun) as (s1 & s2 & Hv & Hg).
    rewrite visit_ClassDef_eq in Hv. bind_inv Hv. bind_inv Hv. bind_inv Hv.
    assert (Hnew : nth_error
                     (Doc.classes (fst (Doc.append_class s1 c a a0)))
                     (List.length (Doc.classes s1))
                   = Some (ClassDoc.init c a a0)).
    { cbn. rewrite nth_error_app2 by lia. now rewrite Nat.sub_diag. }
    destruct (grows_classes _ _ (methods_loop_grows _ _ _ _ _ _ Ha1) _ _ Hnew)
      as (c1 & Hc1 & Hn1 & _).
    destruct (grows_classes _ _ (visit_all_grows _ _ _ _ _ Hv) _ _ Hc1)
      as (c2 & Hc2 & Hn2 & _).
    destruct (grows_classes _ _ Hg _ _ Hc2) as (c3 & Hc3 & Hn3 & _).
    exists c3. split; [eapply nth_error_In, Hc3|].
    rewrite Hn3, Hn2, Hn1. reflexivity.
Qed.

(** X12.  A traversal ends without an exception only if, for every
    function and class definition in the tree, all decorators are of a
    supported shape and the doc-string parser accepts the doc-string:
    one decorator such as [@lru_cache(128)] anywhere in a file makes
    the traversal of the file raise. *)
Theorem traversal_ok_only_if
    (filename : string) (tree : node) (doc : Doc.t)
    (n : node) (name_ : string) (body : list node) (ds : list expr) :
  run_visitor cleandoc docstring_parse filename tree = Ok doc ->
  within n tree ->
  n = FunctionDef name_ body ds \/ n = ClassDef name_ body ds ->
  forallb supported ds = true
  /\ exists d, grab_doc n = Ok d.
Proof.
  intros Hrun Hw Hn. unfold run_visitor in Hrun.
  destruct (visit_within_reaches _ _ _ _ Hw Hrun) as (s1 & s2 & Hv & _).
  assert (H : (exists tags, decorator_loop ds [] = Ok tags)
              /\ exists d, grab_doc n = Ok d).
  { destruct Hn as [-> | ->].
    - rewrite visit_FunctionDef_eq in Hv. bind_inv Hv. bind_inv Hv. eauto.
    - rewrite visit_ClassDef_eq in Hv. bind_inv Hv. bind_inv Hv. eauto. }
  destruct H as [[tags Ht] Hd]. split; [|exact Hd].
  destruct (forallb supported ds) eqn:E; [reflexivity|].
  destruct (decorator_loop_raises ds [] E) as [x Hx]. congruence.
Qed.

(** X13.  A visit that ends without an exception only adds: it leaves
    the name of the [Doc] as it is, every function and every endpoint
    stays a key of its dictionary, and every class stays at its index
    with its name and with all its method names. *)
Theorem traversal_only_adds (n : node) (self self' : Doc.t) :
  visit n self = Ok self' ->
  Doc.name self' = Doc.name self
  /\ incl (PyDict.keys (Doc.functions self)) (PyDict.keys (Doc.functions self'))
  /\ incl (PyDict.keys (Doc.endpoints self)) (PyDict.keys (Doc.endpoints self'))
  /\ forall j c, nth_error (Doc.classes self) j = Some c ->
       exists c', nth_error (Doc.classes self') j = Some c'
                  /\ ClassDoc.name c' = ClassDoc.name c
                  /\ incl (PyDict.keys (ClassDoc.methods c))
                          (PyDict.keys (ClassDoc.methods c')).
Proof.
  intro H. split.
  - symmetry.
    apply (proj1 (visit_kept_below (fun a b => Doc.name a = Doc.name b)
                    ltac:(reflexivity) ltac:(intros; congruence)
                    ltac:(reflexivity) ltac:(reflexivity)
                    ltac:(reflexivity) ltac:(reflexivity) n) _ _ H).
  - destruct (visit_grows _ _ _ _ _ H) as [F E C].
    split; [|split].
    + intros k Hk. apply mem_keys, F, mem_keys, Hk.
    + intros k Hk. apply mem_keys, E, mem_keys, Hk.
    + intros j c Hc. destruct (C j c Hc) as (c' & Hc' & Hn & Hm).
      exists c'. split; [exact Hc'|]. split; [exact Hn|].
      intros k Hk. apply mem_keys, Hm, mem_keys, Hk.
Qed.

End MoreTraversal.

Lemma definitions_recorded_witness :
  let parse := fun text : string => Ok (mkDocstring (Some text) [] None) in
  let inner := FunctionDef "helper" [] [] in
  let tree := Module [ClassDef "Runner"
                        [FunctionDef "run" [Other [inner]] []] []] in
  exists doc,
    run_visitor (fun s => s) parse "m.py" tree = Ok doc
    /\ PyDict.mem "helper" (Doc.functions doc) = true
    /\ exists c, In c (Doc.classes doc) /\ ClassDoc.name c = "Runner".
Proof.
  intros parse inner tree.
  eexists. split; [vm_compute; reflexivity|].
  destruct (definitions_recorded (fun s => s) parse "m.py" tree _
              ltac:(vm_compute; reflexivity)) as [Hf Hc].
  split.
  - apply (Hf "helper" [] []).
    eapply within_child; [left; reflexivity|].
    eapply within_child; [left; reflexivity|].
    eapply within_child; [left; reflexivity|].
    eapply within_child; [left; reflexivity|].
    apply within_self.
  - apply (Hc "Runner" [FunctionDef "run" [Other [inner]] []] []).
    eapply within_child; [left; reflexivity | apply within_self].
Defined.

Lemma traversal_ok_only_if_witness :
  let parse := fun text : string => Ok (mkDocstring (Some text) [] None) in
  let ds := [Call (Attribute (Name "app") "get") [Constant (CStr "/run")]] in
  let f := FunctionDef "run" [] ds in
  forallb supported ds = true
  /\ exists d, grab_doc (fun s => s) parse f = Ok d.
Proof.
  intros parse ds f.
  apply (traversal_ok_only_if (fun s => s) parse "m.py" (Module [f])
           (Doc.append_function
              (Doc.set_module (Doc.init "m.py")
                 (mkDocstring (Some "None") [] None))
              "run" (mkDocstring (Some "None") [] None) ["get:/run"])
           f "run" [] ds).
  - vm_compute. reflexivity.
  - eapply within_child; [left; reflexivity | apply within_self].
  - left. reflexivity.
Defined.

Lemma traversal_only_adds_witness :
  let parse := fun text : string => Ok (mkDocstring (Some text) [] None) in
  let f := FunctionDef "run" [] [] in
  let self := Doc.init "m.py" in
  let self' := Doc.append_function self "run"
                 (mkDocstring (Some "None") [] None) [] in
  Doc.name self' = Doc.name self
  /\ incl (PyDict.keys (Doc.functions self)) (PyDict.keys (Doc.functions self'))
  /\ incl (PyDict.keys (Doc.endpoints self)) (PyDict.keys (Doc.endpoints self'))
  /\ forall j c, nth_error (Doc.classes self) j = Some c ->
       exists c', nth_error (Doc.classes self') j = Some c'
                  /\ ClassDoc.name c' = ClassDoc.name c
                  /\ incl (PyDict.keys (ClassDoc.methods c))
                          (PyDict.keys (ClassDoc.methods c')).
Proof.
  intros parse f self self'.
  apply (traversal_only_adds (fun s => s) parse f self self').
  vm_compute. reflexivity.
Defined.

(* ================================================================== *)
(** ** The classes a traversal builds *)

Lemma classes_append_method_at (s : Doc.t) (pre post : list ClassDoc.t)
    (c : ClassDoc.t) (m : string) (d : Docstring) :
  Doc.classes s = (pre ++ c :: post)%list ->
  Doc.classes (Doc.append_method s (List.length pre) m d)
  = (pre ++ ClassDoc.append_method c m d :: post)%list.
Proof.
  intro H. cbn [Doc.append_method Doc.classes]. rewrite H.
  rewrite nth_error_app2 by lia. rewrite Nat.sub_diag. cbn [nth_error].
  rewrite firstn_app, firstn_all, Nat.sub_diag. cbn [firstn].
  rewrite app_nil_r, skipn_app, skipn_all2 by lia.
  replace (S (List.length pre) - List.length pre) with 1 by lia.
  reflexivity.
Qed.

Section ClassesBuilt.
Variable cleandoc : string -> string.
Variable docstring_parse : string -> result Docstring.

Local Abbreviation visit := (visit cleandoc docstring_parse).
Local Abbreviation visit_all := (visit_all cleandoc docstring_parse).
Local Abbreviation methods_loop := (methods_loop cleandoc docstring_parse).
Local Abbreviation grab_doc := (grab_doc cleandoc docstring_parse).
Local Abbreviation collect := (collect_methods cleandoc docstring_parse).

Lemma collect_methods_name (l : list node) (c c' : ClassDoc.t) :
  collect l c = Ok c' ->
  ClassDoc.name c' = ClassDoc.name c
  /\ ClassDoc.doc c' = ClassDoc.doc c
  /\ ClassDoc.decorators c' = ClassDoc.decorators c.
Proof.
  revert c; induction l as [|x r IH]; intros c H.
  - cbn in H. injection H as <-. auto.
  - destruct x as [body|f body ds|k body ds|e|cs];
      try (cbn in H; apply IH, H).
    cbn [collect_methods] in H. bind_inv H.
    destruct (IH _ H) as (Hn & Hd & Hds). auto.
Qed.

Lemma visit_all_built_if (l : list node) :
  Forall (fun n => forall s s', visit n s = Ok s' ->
            exists ext, Doc.classes s' = (Doc.classes s ++ ext)%list
                        /\ map ClassDoc.name ext = class_names n) l ->
  forall s s', visit_all l s = Ok s' ->
    exists ext, Doc.classes s' = (Doc.classes s ++ ext)%list
                /\ map ClassDoc.name ext = flat_map class_names l.
Proof.
  induction 1 as [|c r Hc _ IH]; intros s s' H.
  - cbn in H. injection H as <-. exists []. now rewrite app_nil_r.
  - rewrite visit_all_cons in H. bind_inv H.
    destruct (Hc _ _ Ha) as (e1 & H1 & N1).
    destruct (IH _ _ H) as (e2 & H2 & N2).
    exists (e1 ++ e2)%list. split.
    + now rewrite H2, H1, app_assoc.
    + cbn [flat_map]. now rewrite map_app, N1, N2.
Qed.

Lemma methods_loop_built_if (l : list node) :
  Forall (fun n => forall s s', visit_all (children n) s = Ok s' ->
            exists ext, Doc.classes s' = (Doc.classes s ++ ext)%list
                        /\ map ClassDoc.name ext
                           = flat_map class_names (children n)) l ->
  forall s s' pre c post,
    Doc.classes s = (pre ++ c :: post)%list ->
    methods_loop (List.length pre) l s = Ok s' ->
    exists c' ext,
      collect l c = Ok c'
      /\ Doc.classes s' = (pre ++ c' :: post ++ ext)%list
      /\ map ClassDoc.name ext = below_methods l.
Proof.
  induction 1 as [|x r Hx _ IH]; intros s s' pre c post Hs H.
  - cbn in H. injection H as <-. exists c, [].
    split; [reflexivity|]. now rewrite app_nil_r.
  - destruct x as [body|f body ds|k body ds|e|cs];
      try (cbn in H; destruct (IH _ _ _ _ _ Hs H) as (c' & ext & Hc & Hl & Hn);
           exists c', ext; auto).
    change (methods_loop (List.length pre) (FunctionDef f body ds :: r) s)
      with (md <- grab_doc (FunctionDef f body ds) ;;
            s1 <- visit_all body
                    (Doc.append_method s (List.length pre) f md) ;;
            methods_loop (List.length pre) r s1) in H.
    bind_inv H. bind_inv H.
    pose proof (classes_append_method_at s pre post c f a Hs) as Hs1.
    destruct (Hx _ _ Ha0) as (e1 & H1 & N1). cbn [children] in N1.
    rewrite Hs1 in H1.
    assert (Hs2 : Doc.classes a0
                  = (pre ++ ClassDoc.append_method c f a :: (post ++ e1))%list)
      by (rewrite H1, <- app_assoc; reflexivity).
    destruct (IH _ _ _ _ _ Hs2 H) as (c' & e2 & Hc & Hl & N2).
    exists c', (e1 ++ e2)%list. split; [|split].
    + cbn [collect_methods]. rewrite Ha. exact Hc.
    + rewrite Hl. now rewrite <- !app_assoc.
    + unfold below_methods in *. cbn [flat_map].
      now rewrite map_app, N1, N2.
Qed.

Lemma visit_built_below (n : node) :
  (forall s s', visit n s = Ok s' ->
     exists ext, Doc.classes s' = (Doc.classes s ++ ext)%list
                 /\ map ClassDoc.name ext = class_names n)
  /\ (forall s s', visit_all (children n) s = Ok s' ->
        exists ext, Doc.classes s' = (Doc.classes s ++ ext)%list
                    /\ map ClassDoc.name ext
                       = flat_map class_names (children n)).
Proof.
  assert (Hchildren : forall l,
            Forall (fun n =>
               (forall s s', visit n s = Ok s' ->
                  exists ext, Doc.classes s' = (Doc.classes s ++ ext)%list
                              /\ map ClassDoc.name ext = class_names n)
               /\ (forall s s', visit_all (children n) s = Ok s' ->
                     exists ext,
                       Doc.classes s' = (Doc.classes s ++ ext)%list
                       /\ map ClassDoc.name ext
                          = flat_map class_names (children n))) l ->
            forall s s', visit_all l s = Ok s' ->
              exists ext, Doc.classes s' = (Doc.classes s ++ ext)%list
                          /\ map ClassDoc.name ext = flat_map class_names l).
  { intros l Hl. apply visit_all_built_if.
    eapply Forall_impl; [|exact Hl]. intros a Ha. apply Ha. }
  induction n as [body IH|f body ds IH|c body ds IH|e|cs IH]
    using node_children_ind; cbn [children].
  - split; [|exact (Hchildren _ IH)]. intros s s' H.
    rewrite visit_Module_eq in H. bind_inv H.
    exact (Hchildren _ IH _ _ H).
  - split; [|exact (Hchildren _ IH)]. intros s s' H.
    rewrite visit_FunctionDef_eq in H. bind_inv H. bind_inv H.
    exact (Hchildren _ IH _ _ H).
  - split; [|exact (Hchildren _ IH)]. intros s s' H.
    rewrite visit_ClassDef_eq in H. bind_inv H. bind_inv H. bind_inv H.
    assert (Hl : Forall (fun n => forall s s',
                   visit_all (children n) s = Ok s' ->
                   exists ext, Doc.classes s' = (Doc.classes s ++ ext)%list
                               /\ map ClassDoc.name ext
                                  = flat_map class_names (children n)) body)
      by (eapply Forall_impl; [|exact IH]; intros x Hx; apply Hx).
    destruct (methods_loop_built_if body Hl
                (fst (Doc.append_class s c a a0)) a1 (Doc.classes s)
                (ClassDoc.init c a a0) [] eq_refl Ha1)
      as (c' & e1 & Hc & H1 & N1).
    destruct (Hchildren _ IH _ _ H) as (e2 & H2 & N2).
    exists (c' :: e1 ++ e2)%list. split.
    + rewrite H2, H1. cbn [app]. now rewrite <- app_assoc.
    + cbn [map class_names]. rewrite map_app, N1, N2.
      rewrite (proj1 (collect_methods_name _ _ _ Hc)). reflexivity.
  - split; intros s s' H; cbn in H; injection H as <-; exists [];
      now rewrite app_nil_r.
  - split; [|exact (Hchildren _ IH)]. intros s s' H.
    rewrite visit_Other_eq in H. exact (Hchildren _ IH _ _ H).
Qed.

Lemma visit_all_built (l : list node) (s s' : Doc.t) :
  visit_all l s = Ok s' ->
  exists ext, Doc.classes s' = (Doc.classes s ++ ext)%list
              /\ map ClassDoc.name ext = flat_map class_names l.
Proof.
  apply visit_all_built_if. apply Forall_forall.
  intros n _. apply visit_built_below.
Qed.

Lemma collect_methods_only_direct (l : list node) (c c' : ClassDoc.t)
    (m : string) (md : Docstring) :
  collect l c = Ok c' ->
  PyDict.get m (ClassDoc.methods c') = Some md ->
  PyDict.get m (ClassDoc.methods c) = Some md
  \/ exists mbody mds,
       In (FunctionDef m mbody mds) l
       /\ grab_doc (FunctionDef m mbody mds) = Ok md.
Proof.
  revert c; induction l as [|x r IH]; intros c H Hget.
  - cbn in H. injection H as <-. now left.
  - destruct x as [body|f body ds|k body ds|e|cs];
      try (cbn in H; destruct (IH _ H Hget) as [Hl|(b & d & Hin & Hg)];
           [now left | right; exists b, d; split; [now right | exact Hg]]).
    cbn [collect_methods] in H. bind_inv H.
    destruct (IH _ H Hget) as [Hl|(b & d & Hin & Hg)].
    + cbn [ClassDoc.append_method ClassDoc.methods] in Hl.
      destruct (string_dec m f) as [->|Hne].
      * rewrite get_set_same in Hl. injection Hl as ->.
        right. exists body, ds. split; [now left | exact Ha].
      * rewrite get_set_other in Hl by exact Hne. now left.
    + right. exists b, d. split; [now right | exact Hg].
Qed.

(** X14.  After a traversal that ends without an exception, the names
    of the classes of the [Doc], in order, are the names [class_names]
    lists: a class defined in the body of a method is visited twice,
    once from the loop over the class body and once from the generic
    visit, and is in [classes] twice. *)
Theorem classes_in_visit_order (filename : string) (tree : node) (doc : Doc.t) :
  run_visitor cleandoc docstring_parse filename tree = Ok doc ->
  map ClassDoc.name (Doc.classes doc) = class_names tree.
Proof.
  intro H. unfold run_visitor in H.
  destruct (proj1 (visit_built_below tree) _ _ H) as (ext & Hc & Hn).
  rewrite Hc. exact Hn.
Qed.

(** X15.  A visit of a class definition that ends without an exception
    puts one new class right after the classes the [Doc] had, and
    leaves those as they were.  The new class has the name, the parsed
    doc-string and the decorator tags of the definition, and its methods
    are the function definitions directly in the class body, each with
    its parsed doc-string: no method comes from a nested function, from
    another class or from a later visit. *)
Theorem class_doc_built (cname : string) (body : list node) (ds : list expr)
    (self self' : Doc.t) :
  visit (ClassDef cname body ds) self = Ok self' ->
  exists d tags c ext,
    grab_doc (ClassDef cname body ds) = Ok d
    /\ decorator_names (ClassDef cname body ds) = Ok tags
    /\ collect body (ClassDoc.init cname d tags) = Ok c
    /\ Doc.classes self' = (Doc.classes self ++ c :: ext)%list
    /\ ClassDoc.name c = cname
    /\ ClassDoc.doc c = d
    /\ ClassDoc.decorators c = tags
    /\ forall m md,
         PyDict.get m (ClassDoc.methods c) = Some md ->
         exists mbody mds,
           In (FunctionDef m mbody mds) body
           /\ grab_doc (FunctionDef m mbody mds) = Ok md.
Proof.
  intro H. rewrite visit_ClassDef_eq in H.
  bind_inv H. bind_inv H. bind_inv H.
  assert (Hl : Forall (fun n => forall s s',
                 visit_all (children n) s = Ok s' ->
                 exists ext, Doc.classes s' = (Doc.classes s ++ ext)%list
                             /\ map ClassDoc.name ext
                                = flat_map class_names (children n)) body)
    by (apply Forall_forall; intros n _; apply visit_built_below).
  destruct (methods_loop_built_if body Hl
              (fst (Doc.append_class self cname a a0)) a1 (Doc.classes self)
              (ClassDoc.init cname a a0) [] eq_refl Ha1)
    as (c & e1 & Hc & H1 & _).
  destruct (visit_all_built _ _ _ H) as (e2 & H2 & _).
  destruct (collect_methods_name _ _ _ Hc) as (Hn & Hd & Hds).
  exists a, a0, c, (e1 ++ e2)%list.
  repeat (split; [assumption || reflexivity || idtac|]);
    try (rewrite H2, H1; cbn [app]; now rewrite <- app_assoc).
  intros m md Hget.
  destruct (collect_methods_only_direct _ _ _ _ _ Hc Hget) as [Hi|Hr];
    [discriminate Hi | exact Hr].
Qed.

End ClassesBuilt.

Lemma classes_in_visit_order_witness :
  let parse := fun text : string => Ok (mkDocstring (Some text) [] None) in
  let tree := Module [ClassDef "Outer"
                        [FunctionDef "run" [ClassDef "Inner" [] []] []] []] in
  map ClassDoc.name
    (Doc.classes
       (Doc.mk "m.py" (Doc.ModuleDoc (mkDocstring (Some "None") [] None))
          [ClassDoc.mk "Outer" (mkDocstring (Some "None") [] None)
             [("run", mkDocstring (Some "None") [] None)] [];
           ClassDoc.init "Inner" (mkDocstring (Some "None") [] None) [];
           ClassDoc.init "Inner" (mkDocstring (Some "None") [] None) []]
          [("run", mkDocstring (Some "None") [] None)] []))
  = class_names tree.
Proof.
  intros parse tree.
  apply (classes_in_visit_order (fun s => s) parse "m.py" tree).
  vm_compute. reflexivity.
Defined.

Lemma class_doc_built_witness :
  let parse := fun text : string => Ok (mkDocstring (Some text) [] None) in
  let body := [Expr (Constant (CStr "A runner."));
               FunctionDef "run" [FunctionDef "inner" [] []] []] in
  exists self' d tags c ext,
    visit (fun s => s) parse (ClassDef "Runner" body []) (Doc.init "m.py")
    = Ok self'
    /\ grab_doc (fun s => s) parse (ClassDef "Runner" body []) = Ok d
    /\ decorator_names (ClassDef "Runner" body []) = Ok tags
    /\ collect_methods (fun s => s) parse body
         (ClassDoc.init "Runner" d tags) = Ok c
    /\ Doc.classes self' = (Doc.classes (Doc.init "m.py") ++ c :: ext)%list
    /\ PyDict.keys (ClassDoc.methods c) = ["run"].
Proof.
  intros parse body. eexists.
  destruct (class_doc_built (fun s => s) parse "Runner" body []
              (Doc.init "m.py") _ ltac:(vm_compute; reflexivity))
    as (d & tags & c & ext & Hd & Ht & Hc & Hcl & _).
  exists d, tags, c, ext.
  split; [vm_compute; reflexivity|].
  repeat (split; [assumption|]).
  vm_compute in Hc. injection Hc as <-. reflexivity.
Defined.

(* ================================================================== *)
(** ** [handle_docs] *)

Lemma split_on_colon (s : string) :
  split_on ":" s
  = before_colon s :: match after_colon s with
                      | Some r => split_on ":" r
                      | None => []
                      end.
Proof.
  induction s as [|c r IH]; [reflexivity|].
  cbn [split_on before_colon after_colon].
  destruct (Ascii.eqb c ":"); [reflexivity|].
  rewrite IH. reflexivity.
Qed.

Lemma split_on_head (s : string) : hd "" (split_on ":" s) = before_colon s.
Proof. now rewrite split_on_colon. Qed.

Lemma split_on_second (s : string) :
  nth_error (split_on ":" s) 1 = route_of s.
Proof.
  rewrite split_on_colon. unfold route_of. cbn [nth_error].
  destruct (after_colon s) as [r|]; [|reflexivity].
  rewrite split_on_colon. reflexivity.
Qed.

Lemma route_of_none_iff (s : string) :
  route_of s = None <-> contains ":" s = false.
Proof.
  unfold route_of. induction s as [|c r IH]; [split; reflexivity|].
  cbn [after_colon contains String.prefix].
  destruct (Ascii.eqb_spec c ":") as [->|Hne].
  - cbn. destruct r; split; discriminate.
  - destruct (ascii_dec ":" c) as [E|_]; [congruence|]. exact IH.
Qed.

Lemma length_append (a b : string) :
  String.length (a ++ b) = String.length a + String.length b.
Proof. induction a as [|c a IH]; simpl; [reflexivity | now rewrite IH]. Qed.

Lemma append_suffix_neq (a b : string) : b <> "" -> a ++ b <> a.
Proof.
  intros Hb H. apply (f_equal String.length) in H.
  rewrite length_append in H. destruct b; [congruence | simpl in H; lia].
Qed.

Section HandleDocsFacts.
Variable cleandoc : string -> string.
Variable docstring_parse : string -> result Docstring.
Variable stem : string -> string.
Variable path_join : string -> string -> string.
Variable upper : string -> string.

Local Abbreviation handle :=
  (handle_docs cleandoc docstring_parse stem path_join upper).
Local Abbreviation step_of := (endpoint_step stem path_join upper).
Local Abbreviation events_of := (endpoint_events stem path_join upper).
Local Abbreviation nav_of := (endpoint_nav stem path_join).
Local Abbreviation dir_of := (endpoint_dir_of path_join).
Local Abbreviation traverse := (run_visitor cleandoc docstring_parse).

Lemma endpoint_step_eq (md_path md_file : string) (item : endpoint_tuple)
    (nav : list (string * string)) (log : list event) :
  step_of md_file (dir_of md_path md_file) item nav log
  = match route_of (snd item) with
    | Some _ =>
        (Done (nav ++ nav_of md_path md_file item)%list,
         (log ++ events_of md_path md_file item)%list)
    | None => (Failed IndexError, log)
    end.
Proof.
  destruct item as [[name_ doc] http].
  unfold endpoint_step, endpoint_nav, endpoint_events. cbn [fst snd].
  rewrite split_on_second, split_on_head.
  destruct (route_of http) as [route|]; [|reflexivity].
  unfold IO.bind, IO.emit, IO.ret. now rewrite <- app_assoc.
Qed.

Lemma endpoint_loop_ok (md_path md_file : string) (l : list endpoint_tuple)
    (nav : list (string * string)) (log : list event) :
  (forall item, In item l -> route_of (snd item) <> None) ->
  IO.for_each l (step_of md_file (dir_of md_path md_file)) nav log
  = (Done (nav ++ flat_map (nav_of md_path md_file) l)%list,
     (log ++ flat_map (events_of md_path md_file) l)%list).
Proof.
  revert nav log; induction l as [|item l IH]; intros nav log H.
  - cbn. unfold IO.ret. now rewrite !app_nil_r.
  - cbn [IO.for_each flat_map]. unfold IO.bind. rewrite endpoint_step_eq.
    destruct (route_of (snd item)) eqn:E;
      [|exfalso; exact (H item (or_introl eq_refl) E)].
    rewrite IH by (intros i Hi; apply H; now right).
    now rewrite <- !app_assoc.
Qed.

Lemma endpoint_loop_fail (md_path md_file : string)
    (good rest : list endpoint_tuple) (bad : endpoint_tuple)
    (nav : list (string * string)) (log : list event) :
  (forall item, In item good -> route_of (snd item) <> None) ->
  route_of (snd bad) = None ->
  IO.for_each (good ++ bad :: rest)%list
    (step_of md_file (dir_of md_path md_file)) nav log
  = (Failed IndexError,
     (log ++ flat_map (events_of md_path md_file) good)%list).
Proof.
  revert nav log; induction good as [|item l IH]; intros nav log H Hbad.
  - cbn [app IO.for_each flat_map]. unfold IO.bind.
    rewrite endpoint_step_eq, Hbad. now rewrite app_nil_r.
  - cbn [app IO.for_each flat_map]. unfold IO.bind. rewrite endpoint_step_eq.
    destruct (route_of (snd item)) eqn:E;
      [|exfalso; exact (H item (or_introl eq_refl) E)].
    rewrite IH by (auto; intros i Hi; apply H; now right).
    now rewrite <- !app_assoc.
Qed.

(** The traversal keeps the invariant of [Doc]. *)
Lemma visit_invariant (n : node) (self self' : Doc.t) :
  visit cleandoc docstring_parse n self = Ok self' ->
  endpoints_are_functions self -> endpoints_are_functions self'.
Proof.
  apply (proj1 (visit_kept_below cleandoc docstring_parse
                  (fun a b => endpoints_are_functions a ->
                              endpoints_are_functions b)
                  (fun s H => H) (fun a b c Hab Hbc H => Hbc (Hab H))
                  (fun s d H => H)
                  (fun s n d tags => step_invariant s (AppendFunction n d tags))
                  (fun s n d tags H => H) (fun s ref n d H => H) n)).
Qed.

Lemma first_without_route (l : list endpoint_tuple) :
  (exists item, In item l /\ route_of (snd item) = None) ->
  exists good bad rest,
    l = (good ++ bad :: rest)%list
    /\ (forall item, In item good -> route_of (snd item) <> None)
    /\ route_of (snd bad) = None.
Proof.
  induction l as [|x l IH]; intros (item & Hin & Hr); [destruct Hin|].
  destruct (route_of (snd x)) eqn:E.
  - destruct Hin as [->|Hin]; [congruence|].
    destruct (IH (ex_intro _ item (conj Hin Hr)))
      as (good & bad & rest & -> & Hg & Hb).
    exists (x :: good), bad, rest. split; [reflexivity|]. split; [|exact Hb].
    intros i [<-|Hi]; [congruence | auto].
  - exists [], x, l. split; [reflexivity|]. split; [intros i []|exact E].
Qed.

Lemma handle_docs_done (path md_path : string) (tree : node) (doc : Doc.t)
    (log : list event) :
  traverse path tree = Ok doc ->
  (forall item, In item (snd (compile_value doc)) ->
                route_of (snd item) <> None) ->
  handle path md_path tree log
  = (Done ((stem path, NavFile (stem path ++ ".md"))
           :: match snd (compile_value doc) with
              | [] => []
              | _ :: _ =>
                  [(stem path ++ " - Endpoints",
                    NavGroup (flat_map (nav_of md_path (stem path))
                                (snd (compile_value doc))))]
              end),
     (log
      ++ OpenFile (path_join md_path (stem path ++ ".md"))
      :: match snd (compile_value doc) with
         | [] => []
         | _ :: _ =>
             Makedirs (dir_of md_path (stem path))
             :: flat_map (events_of md_path (stem path))
                  (snd (compile_value doc))
         end
      ++ [WriteText (path_join md_path (stem path ++ ".md"))
            (join ("---" ++ nl ++ nl) (fst (fst (compile_value doc))));
          WriteText (path_join md_path (stem path ++ ".md"))
            (join ("---" ++ nl ++ nl) (snd (fst (compile_value doc))));
          PrintLine ("... Wrote docs to " ++ stem path)])%list).
Proof.
  intros Hrun Hall. unfold handle_docs. rewrite Hrun, compile_eq.
  destruct (compile_value doc) as [[cls funcs] eps]. cbn [fst snd] in *.
  unfold IO.bind at 1. unfold IO.emit at 1.
  destruct eps as [|e eps].
  - unfold IO.bind, IO.emit, IO.ret. cbn [PyDict.set].
    rewrite <- !app_assoc. reflexivity.
  - unfold IO.bind at 1. unfold IO.bind at 1. unfold IO.emit at 1.
    unfold IO.bind at 1.
    fold (dir_of md_path (stem path)).
    rewrite (endpoint_loop_ok md_path (stem path) (e :: eps) [] _ Hall).
    unfold IO.bind, IO.emit, IO.ret. cbn [PyDict.set app].
    assert (Hne : (stem path ++ " - Endpoints" =? stem path) = false)
      by (apply String.eqb_neq, append_suffix_neq; discriminate).
    rewrite Hne. rewrite <- !app_assoc. reflexivity.
Qed.

Lemma handle_docs_index_error (path md_path : string) (tree : node)
    (doc : Doc.t) (good rest : list endpoint_tuple) (bad : endpoint_tuple)
    (log : list event) :
  traverse path tree = Ok doc ->
  snd (compile_value doc) = (good ++ bad :: rest)%list ->
  (forall item, In item good -> route_of (snd item) <> None) ->
  route_of (snd bad) = None ->
  handle path md_path tree log
  = (Failed IndexError,
     (log
      ++ OpenFile (path_join md_path (stem path ++ ".md"))
      :: Makedirs (dir_of md_path (stem path))
      :: flat_map (events_of md_path (stem path)) good)%list).
Proof.
  intros Hrun Heps Hgood Hbad. unfold handle_docs. rewrite Hrun, compile_eq.
  destruct (compile_value doc) as [[cls funcs] eps]. cbn [fst snd] in *.
  subst eps. unfold IO.bind at 1. unfold IO.emit at 1.
  destruct (good ++ bad :: rest)%list as [|e eps] eqn:E;
    [destruct good; discriminate|].
  unfold IO.bind at 1. unfold IO.bind at 1. unfold IO.emit at 1.
  unfold IO.bind at 1.
  fold (dir_of md_path (stem path)). rewrite <- E.
  rewrite (endpoint_loop_fail md_path (stem path) good rest bad [] _
             Hgood Hbad).
  rewrite <- !app_assoc. reflexivity.
Qed.




End HandleDocsFacts.




(* ================================================================== *)
(** ** The program *)

Lemma appends_ret {A : Type} (a : A) : appends (IO.ret a).
Proof. intro log. cbn. now rewrite app_nil_r. Qed.

Lemma appends_fail {A : Type} (f : failure) : appends (@IO.fail A f).
Proof. intro log. cbn. now rewrite app_nil_r. Qed.

Lemma appends_emit (e : event) : appends (IO.emit e).
Proof. intro log. reflexivity. Qed.

Lemma appends_bind {A B : Type} (m : IO.M A) (k : A -> IO.M B) :
  appends m -> (forall a, appends (k a)) -> appends (IO.bind m k).
Proof.
  intros Hm Hk log. unfold IO.bind. rewrite (Hm log).
  destruct (m []) as [[a|f] evs]; cbn [fst snd].
  - rewrite (Hk a (log ++ evs)%list), (Hk a evs). cbn [fst snd].
    now rewrite app_assoc.
  - reflexivity.
Qed.

Lemma appends_for_each {X S : Type} (l : list X) (body : X -> S -> IO.M S)
    (s : S) :
  (forall x s, appends (body x s)) -> appends (IO.for_each l body s).
Proof.
  intro Hb. revert s; induction l as [|x l IH]; intro s; cbn [IO.for_each].
  - apply appends_ret.
  - apply appends_bind; [apply Hb | exact IH].
Qed.

Lemma fold_left_snoc {A : Type} (items table : list A) :
  fold_left (fun table item => (table ++ [item])%list) items table
  = (table ++ items)%list.
Proof.
  revert table; induction items as [|x items IH]; intro table; cbn.
  - now rewrite app_nil_r.
  - rewrite IH. now rewrite <- app_assoc.
Qed.

Section MainFacts.
Variable cleandoc : string -> string.
Variable docstring_parse : string -> result Docstring.
Variable stem : string -> string.
Variable path_join : string -> string -> string.
Variable upper : string -> string.
Variable isfile : string -> bool.
Variable rglob : string -> list string.
Variable parse_file : string -> node.
Variable yaml_load : string -> PyDict.t yaml.

Local Abbreviation handle :=
  (handle_docs cleandoc docstring_parse stem path_join upper).
Local Abbreviation extract_ :=
  (extract cleandoc docstring_parse stem path_join upper parse_file).
Local Abbreviation main_ :=
  (main cleandoc docstring_parse stem path_join upper isfile rglob
     parse_file yaml_load).

Lemma appends_endpoint_step (md_file dir : string) (item : endpoint_tuple)
    (nav : list (string * string)) :
  appends (endpoint_step stem path_join upper md_file dir item nav).
Proof.
  destruct item as [[n d] http]. unfold endpoint_step.
  destruct (nth_error (split_on ":" http) 1); [|apply appends_fail].
  repeat (apply appends_bind; [apply appends_emit | intros _]).
  apply appends_ret.
Qed.

Lemma appends_handle_docs (path md_path : string) (tree : node) :
  appends (handle path md_path tree).
Proof.
  unfold handle_docs.
  destruct (run_visitor cleandoc docstring_parse path tree) as [doc|e];
    [|apply appends_fail].
  apply appends_bind; [apply appends_emit | intros _].
  destruct (compile doc) as [[[[cls funcs] eps]|e] doc'];
    [|apply appends_fail].
  apply appends_bind.
  - destruct eps as [|e eps]; [apply appends_ret|].
    apply appends_bind; [apply appends_emit | intros _].
    apply appends_bind; [|intros nav; apply appends_ret].
    apply appends_for_each. intros x s. apply appends_endpoint_step.
  - intros toc.
    repeat (apply appends_bind; [apply appends_emit | intros _]).
    apply appends_ret.
Qed.

Local Abbreviation files := (files_of stem isfile rglob).

Lemma extract_done (file md_path : string) (table toc : list (string * nav_value))
    (evs log : list event) :
  handle file md_path (parse_file file) [] = (Done toc, evs) ->
  extract_ file md_path table log
  = (Done (table ++ toc)%list, (log ++ extracting file :: evs)%list).
Proof.
  intro H. unfold extract, IO.bind, IO.emit, IO.ret.
  rewrite appends_handle_docs, H. cbn [fst snd].
  now rewrite fold_left_snoc, <- app_assoc.
Qed.

Lemma extract_failed (file md_path : string) (table : list (string * nav_value))
    (x : failure) (evs log : list event) :
  handle file md_path (parse_file file) [] = (Failed x, evs) ->
  extract_ file md_path table log
  = (Failed x, (log ++ extracting file :: evs)%list).
Proof.
  intro H. unfold extract, IO.bind, IO.emit.
  rewrite appends_handle_docs, H. cbn [fst snd].
  now rewrite <- app_assoc.
Qed.

Lemma file_loop_done (md_path : string) (l : list string)
    (toc_of : string -> list (string * nav_value))
    (evs_of : string -> list event)
    (table : list (string * nav_value)) (log : list event) :
  (forall f, In f (filter (fun file => negb (stem file =? "__init__")) l) ->
     handle f md_path (parse_file f) [] = (Done (toc_of f), evs_of f)) ->
  IO.for_each l
    (fun file table =>
       if stem file =? "__init__" then IO.ret table
       else extract_ file md_path table) table log
  = (Done (table
           ++ flat_map toc_of
                (filter (fun file => negb (stem file =? "__init__")) l))%list,
     (log
      ++ flat_map (fun f => extracting f :: evs_of f)
           (filter (fun file => negb (stem file =? "__init__")) l))%list).
Proof.
  revert table log; induction l as [|x l IH]; intros table log H.
  - cbn. unfold IO.ret. now rewrite !app_nil_r.
  - cbn [IO.for_each filter] in *. unfold IO.bind.
    destruct (stem x =? "__init__"); cbn [negb] in *.
    + unfold IO.ret at 1. apply IH, H.
    + rewrite (extract_done x md_path table _ _ log
                 (H x (or_introl eq_refl))).
      rewrite IH by (intros f Hf; apply H; now right).
      cbn [flat_map]. now rewrite <- !app_assoc.
Qed.

Lemma file_loop_failed (md_path : string) (l : list string)
    (toc_of : string -> list (string * nav_value))
    (evs_of : string -> list event)
    (before after : list string) (bad : string)
    (x : failure) (evs : list event)
    (table : list (string * nav_value)) (log : list event) :
  filter (fun file => negb (stem file =? "__init__")) l
  = (before ++ bad :: after)%list ->
  (forall f, In f before ->
     handle f md_path (parse_file f) [] = (Done (toc_of f), evs_of f)) ->
  handle bad md_path (parse_file bad) [] = (Failed x, evs) ->
  IO.for_each l
    (fun file table =>
       if stem file =? "__init__" then IO.ret table
       else extract_ file md_path table) table log
  = (Failed x,
     (log ++ flat_map (fun f => extracting f :: evs_of f) before
      ++ extracting bad :: evs)%list).
Proof.
  revert table log before; induction l as [|y l IH];
    intros table log before Hfil Hbefore Hbad.
  - destruct before; discriminate.
  - cbn [IO.for_each filter] in *. unfold IO.bind.
    destruct (stem y =? "__init__"); cbn [negb] in *.
    + unfold IO.ret at 1. now apply IH.
    + destruct before as [|b before]; cbn [app] in Hfil;
        injection Hfil as -> Hfil.
      * rewrite (extract_failed bad md_path table x evs log Hbad).
        reflexivity.
      * rewrite (extract_done b md_path table _ _ log
                   (Hbefore b (or_introl eq_refl))).
        rewrite (IH _ _ before Hfil) by (auto; intros f Hf; apply Hbefore;
                                         now right).
        cbn [flat_map]. now rewrite <- !app_assoc.
Qed.

(** X19.  With fewer than three arguments after the program name, the
    program prints the usage text and the error line and ends with
    status 1; it opens, writes and reads nothing. *)
Theorem main_usage (argv : list string) (log : list event) :
  List.length argv < 4 ->
  main_ argv log
  = (Done 1,
     (log ++ [PrintLine USAGE;
              PrintLine "[error] Please provide relevant paths!"])%list).
Proof.
  intro H. unfold main.
  destruct argv as [|a0 [|a1 [|a2 [|a3 r]]]]; cbn [List.length] in H;
    try lia;
    unfold IO.bind, IO.emit, IO.ret; now rewrite <- app_assoc.
Qed.


(** X21.  With three arguments, when [handle_docs] ends with an
    exception on one of the files, the program ends with that
    exception right there: the files before it have been worked on, the
    files after it are not, and the manifest is neither opened nor
    dumped. *)
Theorem main_stops_at_failure
    (prog py_path md_path yml_path : string) (more : list string)
    (toc_of : string -> list (string * nav_value))
    (evs_of : string -> list event)
    (before after : list string) (bad : string)
    (x : failure) (evs log : list event) :
  files py_path = (before ++ bad :: after)%list ->
  (forall f, In f before ->
     handle f md_path (parse_file f) [] = (Done (toc_of f), evs_of f)) ->
  handle bad md_path (parse_file bad) [] = (Failed x, evs) ->
  main_ (prog :: py_path :: md_path :: yml_path :: more) log
  = (Failed x,
     (log ++ flat_map (fun f => extracting f :: evs_of f) before
      ++ extracting bad :: evs)%list).
Proof.
  intros Hfiles Hbefore Hbad. unfold main, files_of in *.
  unfold IO.bind at 1. destruct (isfile py_path).
  - destruct before as [|b [|b' before]]; try discriminate.
    injection Hfiles as <- <-.
    rewrite (extract_failed py_path md_path [] x evs log Hbad).
    reflexivity.
  - rewrite (file_loop_failed md_path (rglob py_path) toc_of evs_of
               before after bad x evs [] log Hfiles Hbefore Hbad).
    reflexivity.
Qed.

End MainFacts.

Lemma main_usage_witness :
  main (fun s => s) (fun text => Ok (mkDocstring (Some text) [] None))
    (fun s => s) (fun a b => a ++ "/" ++ b) (fun s => s)
    (fun _ => true) (fun _ => []) (fun _ => Module []) (fun _ => [])
    ["doccer"; "src"; "docs"] []
  = (Done 1,
     [PrintLine USAGE; PrintLine "[error] Please provide relevant paths!"]).
Proof.
  apply (main_usage (fun s => s)
           (fun text => Ok (mkDocstring (Some text) [] None))
           (fun s => s) (fun a b => a ++ "/" ++ b) (fun s => s)
           (fun _ => true) (fun _ => []) (fun _ => Module []) (fun _ => [])
           ["doccer"; "src"; "docs"] []).
  cbn. lia.
Defined.


Lemma main_stops_at_failure_witness :
  let parse := fun text : string => Ok (mkDocstring (Some text) [] None) in
  let join_ := fun a b : string => a ++ "/" ++ b in
  let tree := Module [FunctionDef "cached" []
                        [Call (Name "lru_cache") [Constant (CInt 128)]]] in
  main (fun s => s) parse (fun s => s) join_ (fun s => s)
    (fun _ => true) (fun _ => []) (fun _ => tree) (fun _ => [])
    ["doccer"; "api"; "docs"; "mkdocs.yml"] []
  = (Failed (Visitor TypeError), [PrintLine "Extracting docs from api!"]).
Proof.
  intros parse join_ tree.
  rewrite (main_stops_at_failure (fun s => s) parse (fun s => s) join_
             (fun s => s) (fun _ => true) (fun _ => []) (fun _ => tree)
             (fun _ => []) "doccer" "api" "docs" "mkdocs.yml" []
             (fun _ => []) (fun _ => []) [] [] "api"
             (Visitor TypeError) [] []).
  - reflexivity.
  - reflexivity.
  - intros f [].
  - vm_compute. reflexivity.
Defined.

(* ================================================================== *)
(** ** What the traversal of a module leaves *)

Section ModuleFacts.
Variable cleandoc : string -> string.
Variable docstring_parse : string -> result Docstring.

Local Abbreviation visit_ := (visit cleandoc docstring_parse).
Local Abbreviation visit_all_ := (visit_all cleandoc docstring_parse).
Local Abbreviation methods_loop_ := (methods_loop cleandoc docstring_parse).
Local Abbreviation grab := (grab_doc cleandoc docstring_parse).
Local Abbreviation traverse := (run_visitor cleandoc docstring_parse).

Lemma visit_all_module_if (l : list node) :
  Forall (fun n => no_module n = true ->
            forall s s', visit_ n s = Ok s' -> Doc.module s' = Doc.module s)
         l ->
  forallb no_module l = true ->
  forall s s', visit_all_ l s = Ok s' -> Doc.module s' = Doc.module s.
Proof.
  induction 1 as [|c r Hc _ IH]; intros Hno s s' H.
  - cbn in H. now injection H as <-.
  - cbn [forallb] in Hno. apply andb_true_iff in Hno.
    destruct Hno as [Hn Hr].
    rewrite visit_all_cons in H. bind_inv H.
    rewrite (IH Hr _ _ H). exact (Hc Hn _ _ Ha).
Qed.

Lemma methods_loop_module_if (new_class : nat) (l : list node) :
  Forall (fun n => forallb no_module (children n) = true ->
            forall s s', visit_all_ (children n) s = Ok s' ->
                         Doc.module s' = Doc.module s) l ->
  forallb no_module l = true ->
  forall s s', methods_loop_ new_class l s = Ok s' ->
               Doc.module s' = Doc.module s.
Proof.
  induction 1 as [|c r Hc _ IH]; intros Hno s s' H.
  - cbn in H. now injection H as <-.
  - cbn [forallb] in Hno. apply andb_true_iff in Hno.
    destruct Hno as [Hn Hr].
    destruct c as [body|f body ds|k body ds|e|cs];
      try (cbn in H; exact (IH Hr _ _ H)).
    change (methods_loop_ new_class (FunctionDef f body ds :: r) s)
      with (md <- grab (FunctionDef f body ds) ;;
            s1 <- visit_all_ body (Doc.append_method s new_class f md) ;;
            methods_loop_ new_class r s1) in H.
    bind_inv H. bind_inv H.
    rewrite (IH Hr _ _ H). cbn [children no_module] in *.
    rewrite (Hc Hn _ _ Ha0). reflexivity.
Qed.

Lemma visit_module_below (n : node) :
  (no_module n = true ->
   forall s s', visit_ n s = Ok s' -> Doc.module s' = Doc.module s)
  /\ (forallb no_module (children n) = true ->
      forall s s', visit_all_ (children n) s = Ok s' ->
                   Doc.module s' = Doc.module s).
Proof.
  assert (Hchildren : forall l,
            Forall (fun n =>
               (no_module n = true ->
                forall s s', visit_ n s = Ok s' ->
                             Doc.module s' = Doc.module s)
               /\ (forallb no_module (children n) = true ->
                   forall s s', visit_all_ (children n) s = Ok s' ->
                                Doc.module s' = Doc.module s)) l ->
            forallb no_module l = true ->
            forall s s', visit_all_ l s = Ok s' ->
                         Doc.module s' = Doc.module s).
  { intros l Hl. apply visit_all_module_if.
    eapply Forall_impl; [|exact Hl]. intros a Ha. apply Ha. }
  induction n as [body IH|f body ds IH|c body ds IH|e|cs IH]
    using node_children_ind; cbn [children no_module].
  - split; [discriminate | exact (Hchildren _ IH)].
  - split; [|exact (Hchildren _ IH)]. intros Hno s s' H.
    rewrite visit_FunctionDef_eq in H. bind_inv H. bind_inv H.
    rewrite (Hchildren _ IH Hno _ _ H). reflexivity.
  - split; [|exact (Hchildren _ IH)]. intros Hno s s' H.
    rewrite visit_ClassDef_eq in H. bind_inv H. bind_inv H. bind_inv H.
    rewrite (Hchildren _ IH Hno _ _ H).
    assert (Hl : Forall (fun n => forallb no_module (children n) = true ->
                   forall s s', visit_all_ (children n) s = Ok s' ->
                                Doc.module s' = Doc.module s) body)
      by (eapply Forall_impl; [|exact IH]; intros x Hx; apply Hx).
    rewrite (methods_loop_module_if _ body Hl Hno _ _ Ha1). reflexivity.
  - split; intros _ s s' H; cbn in H; now injection H as <-.
  - split; [|exact (Hchildren _ IH)]. intros Hno s s' H.
    rewrite visit_Other_eq in H. exact (Hchildren _ IH Hno _ _ H).
Qed.

(** X22.  After the traversal of a module, the [Doc] has the path as
    its name and the parsed doc-string of the module as its [module];
    nothing below the root changes either. *)
Theorem module_doc_stored (path : string) (body : list node) (doc : Doc.t) :
  forallb no_module body = true ->
  traverse path (Module body) = Ok doc ->
  Doc.name doc = path
  /\ exists d, grab (Module body) = Ok d /\ Doc.module doc = Doc.ModuleDoc d.
Proof.
  intros Hno H. unfold run_visitor in H. split.
  - symmetry.
    apply (proj1 (visit_kept_below cleandoc docstring_parse
                    (fun a b => Doc.name a = Doc.name b)
                    (fun s => eq_refl)
                    (fun a b c Hab Hbc => eq_trans Hab Hbc)
                    (fun s d => eq_refl) (fun s n d tags => eq_refl)
                    (fun s n d tags => eq_refl) (fun s ref n d => eq_refl)
                    (Module body)) _ _ H).
  - rewrite visit_Module_eq in H. bind_inv H. exists a. split; [exact Ha|].
    rewrite (proj2 (visit_module_below (Module body)) Hno _ _ H).
    reflexivity.
Qed.

(** X23.  After a traversal that ends without an exception, every key
    of [endpoints] is a key of [functions], and [compile] gives a tuple
    for every stored endpoint, with its descriptor. *)
Theorem traversal_endpoints_rendered (path : string) (tree : node) (doc : Doc.t) :
  traverse path tree = Ok doc ->
  incl (PyDict.keys (Doc.endpoints doc)) (PyDict.keys (Doc.functions doc))
  /\ exists class_docs func_docs endpoint_docs,
       compile doc = (Ok (class_docs, func_docs, endpoint_docs), doc)
       /\ forall k http,
            PyDict.get k (Doc.endpoints doc) = Some http ->
            exists text, In (k, text, http) endpoint_docs.
Proof.
  intro H. unfold run_visitor in H.
  assert (Hinv : endpoints_are_functions doc).
  { apply (proj1 (visit_kept_below cleandoc docstring_parse
                    (fun a b => endpoints_are_functions a ->
                                endpoints_are_functions b)
                    (fun s Hs => Hs) (fun a b c Hab Hbc Hs => Hbc (Hab Hs))
                    (fun s d Hs => Hs)
                    (fun s n d tags =>
                       step_invariant s (AppendFunction n d tags))
                    (fun s n d tags Hs => Hs) (fun s ref n d Hs => Hs)
                    tree) _ _ H).
    intros x Hx. discriminate Hx. }
  split.
  - intros k Hk. apply mem_keys, Hinv, mem_keys, Hk.
  - exists (fst (fst (compile_value doc))), (snd (fst (compile_value doc))),
      (snd (compile_value doc)).
    split; [rewrite compile_eq; now destruct (compile_value doc) as [[a b] c]|].
    intros k http Hk.
    assert (Hmem : PyDict.mem k (Doc.functions doc) = true)
      by (apply Hinv; unfold PyDict.mem; now rewrite Hk).
    unfold PyDict.mem in Hmem.
    destruct (PyDict.get k (Doc.functions doc)) as [d|] eqn:Hd;
      [|discriminate].
    exists (function_to_markdown k d).
    unfold compile_value. cbn [snd]. apply in_flat_map.
    exists (k, d). split; [now apply get_In|].
    cbn [fst snd]. rewrite Hk. now left.
Qed.

End ModuleFacts.

Lemma module_doc_stored_witness :
  let parse := fun text : string => Ok (mkDocstring (Some text) [] None) in
  let body := [Expr (Constant (CStr "The tool.")); FunctionDef "run" [] []] in
  Doc.name
    (Doc.mk "m.py" (Doc.ModuleDoc (mkDocstring (Some "The tool.") [] None)) []
       [("run", mkDocstring (Some "None") [] None)] []) = "m.py"
  /\ exists d,
       grab_doc (fun s => s) parse (Module body) = Ok d
       /\ Doc.module
            (Doc.mk "m.py"
               (Doc.ModuleDoc (mkDocstring (Some "The tool.") [] None)) []
               [("run", mkDocstring (Some "None") [] None)] [])
          = Doc.ModuleDoc d.
Proof.
  intros parse body.
  apply (module_doc_stored (fun s => s) parse "m.py" body).
  - reflexivity.
  - vm_compute. reflexivity.
Defined.

Lemma traversal_endpoints_rendered_witness :
  let parse := fun text : string => Ok (mkDocstring (Some text) [] None) in
  let tree := Module [FunctionDef "users" []
                        [Call (Name "get") [Constant (CStr "/users")]]] in
  let doc := Doc.mk "m.py"
               (Doc.ModuleDoc (mkDocstring (Some "None") [] None)) []
               [("users", mkDocstring (Some "None") [] None)]
               [("users", "get:/users")] in
  incl (PyDict.keys (Doc.endpoints doc)) (PyDict.keys (Doc.functions doc))
  /\ exists class_docs func_docs endpoint_docs,
       compile doc = (Ok (class_docs, func_docs, endpoint_docs), doc)
       /\ forall k http,
            PyDict.get k (Doc.endpoints doc) = Some http ->
            exists text, In (k, text, http) endpoint_docs.
Proof.
  intros parse tree doc.
  apply (traversal_endpoints_rendered (fun s => s) parse "m.py" tree doc).
  vm_compute. reflexivity.
Defined.
